(** * Prompt and background construction of the quest-generation notebooks

    A shallow embedding of [create_generation_prompt_formats]
    (run-tuned-model.ipynb) and [create_training_prompt_formats]
    (finetune-llama2.ipynb): the two functions that linearise the
    knowledge graph of a game into a "Background" section and assemble
    the prompt text.  Python exceptions are values of [result], the
    process-wide random generator is threaded explicitly, and the
    globals [TRAIN_TYPE], [KG_DEPTH] and [kg_map] are arguments. *)

From Stdlib Require Import ZArith Ascii String.
From stdpp Require Import base option list strings gmap.

(** ** Python exceptions *)

Inductive exn := KeyError | TypeError | AttributeError.

Inductive result (A : Type) :=
  | Ok (a : A)
  | Raise (e : exn).
Arguments Ok {A} a.
Arguments Raise {A} e.

#[global] Instance result_ret : MRet result := fun A a => Ok a.
#[global] Instance result_bind : MBind result := fun A B f m =>
  match m with
  | Ok a => f a
  | Raise e => Raise e
  end.

#[global] Instance result_fmap : FMap result := fun A B f m =>
  match m with
  | Ok a => Ok (f a)
  | Raise e => Raise e
  end.

(** [d[k]] on a dict: a missing key raises [KeyError], a subclass of
    [LookupError]. *)
Definition getitem {A} (o : option A) : result A :=
  match o with
  | Some a => Ok a
  | None => Raise KeyError
  end.

(** Only [KeyError] is a [LookupError] among the exceptions met here. *)
Definition is_LookupError (e : exn) : bool :=
  match e with
  | KeyError => true
  | _ => false
  end.

(** A [for] loop whose body may raise. *)
Fixpoint for_each {T A} (body : T → A → result T) (xs : list A) (s : T) : result T :=
  match xs with
  | [] => Ok s
  | x :: xs' => s' ← body s x; for_each body xs' s'
  end.

(** ** Strings *)

(** The line feed written ['\n'] in the notebooks. *)
Definition nl : string := String (ascii_of_nat 10) "".

Definition ascii_lower (c : ascii) : ascii :=
  let n := nat_of_ascii c in
  if Nat.leb 65 n && Nat.leb n 90 then ascii_of_nat (n + 32) else c.

Definition ascii_upper (c : ascii) : ascii :=
  let n := nat_of_ascii c in
  if Nat.leb 97 n && Nat.leb n 122 then ascii_of_nat (n - 32) else c.

(** [str.lower()], on ASCII text. *)
Fixpoint lower (s : string) : string :=
  match s with
  | EmptyString => EmptyString
  | String c s' => String (ascii_lower c) (lower s')
  end.

(** [str.capitalize()], on ASCII text: first character upper case, the
    rest lower case. *)
Definition capitalize (s : string) : string :=
  match s with
  | EmptyString => EmptyString
  | String c s' => String (ascii_upper c) (lower s')
  end.

(** [needle in hay] on strings. *)
Fixpoint str_in (needle hay : string) : bool :=
  String.prefix needle hay ||
  match hay with
  | EmptyString => false
  | String _ hay' => str_in needle hay'
  end.

(** [sep.join(parts)]. *)
Fixpoint join (sep : string) (parts : list string) : string :=
  match parts with
  | [] => ""
  | [p] => p
  | p :: ps => p +:+ sep +:+ join sep ps
  end.

(** [[part for part in parts if part]]: the empty string is falsy. *)
Definition truthy (parts : list string) : list string :=
  filter (λ p, p ≠ "") parts.

(** [np.char.capitalize(a)] on a Python list of [str].  NumPy first calls
    [asarray]: a non-empty list of strings becomes a unicode array and is
    capitalised element by element, but the empty list becomes a float64
    array, on which string operations raise
    [TypeError: string operation on non-string array]. *)
Definition np_char_capitalize (a : list string) : result (list string) :=
  match a with
  | [] => Raise TypeError
  | _ :: _ => Ok (capitalize <$> a)
  end.

(** ** Data model *)

(** A relation of a kb entry: [rel[0]] is the label, [rel[1]] the target. *)
Definition relation : Type := string * string.

Record KB := {
  kb_name : string;
  kb_description : string;
  kb_type : string;
  kb_relations : list relation
}.

(** A value of the [quest] dict: a string, or a list of strings. *)
Inductive qvalue :=
  | QStr (s : string)
  | QList (l : list string).

(** A dataset row.  [text] and [output] are the keys the prompt functions
    add to the row they are given. *)
Record example := {
  ex_id : string;
  ex_game : string;
  ex_plots : list string;
  ex_kbs : list KB;
  ex_quest : list (string * qvalue);
  ex_text : option string;
  ex_output : option string
}.

(** ** The knowledge graph (networkx) *)

Abbreviation attrs := (gmap string string).

(** First binding of a key in an insertion-ordered dict. *)
Fixpoint assoc {V} (k : string) (d : list (string * V)) : option V :=
  match d with
  | [] => None
  | (k', v) :: d' => if decide (k = k') then Some v else assoc k d'
  end.

(** A graph as [nx.read_gml] builds it: the node dict and the adjacency
    dict of dicts, both in insertion order. *)
Record KG := {
  kg_nodes : list (string * attrs);
  kg_adj : list (string * list (string * attrs))
}.

(** [all_nodes[n][key]] where [all_nodes = kg.nodes(data=True)]. *)
Definition node_attr (kg : KG) (n key : string) : result string :=
  a ← getitem (assoc n (kg_nodes kg)); getitem (a !! key).

(** [kg[u][v][key]]. *)
Definition edge_attr (kg : KG) (u v key : string) : result string :=
  nbrs ← getitem (assoc u (kg_adj kg));
  a ← getitem (assoc v nbrs);
  getitem (a !! key).

(** [G.neighbors(n)], in adjacency order. *)
Definition neighbors (kg : KG) (n : string) : list string :=
  match assoc n (kg_adj kg) with
  | Some nbrs => nbrs.*1
  | None => []
  end.

(** The walk of [nx.dfs_edges] below one node: [children] is what is left
    of the iterator over the neighbours of [parent], [d] is how many more
    levels may be opened under [parent]'s children.  An unvisited child
    yields the edge [(parent, child)], is marked visited, and is expanded
    before its siblings when the depth limit allows. *)
Fixpoint dfs_expand (kg : KG) (d : nat) (parent : string)
    (children : list string) (visited : list string)
    : list (string * string) * list string :=
  (fix scan (children : list string) (visited : list string) :=
     match children with
     | [] => ([], visited)
     | child :: rest =>
       if decide (child ∈ visited) then scan rest visited
       else
         let visited := child :: visited in
         let '(below, visited) :=
           match d with
           | O => ([], visited)
           | S d' => dfs_expand kg d' child (neighbors kg child) visited
           end in
         let '(after, visited) := scan rest visited in
         ((parent, child) :: below ++ after, visited)
     end) children visited.

(** [list(nx.dfs_edges(G, source=source, depth_limit=depth_limit))];
    [depth_limit=None] stands for [len(G)]. *)
Definition dfs_edges (kg : KG) (source : string) (depth_limit : option nat)
    : list (string * string) :=
  let limit := default (length (kg_nodes kg)) depth_limit in
  (dfs_expand kg (limit - 1) source (neighbors kg source) [source]).1.

(** ** The random source *)

(** [random.sample(population, k)] with the state of the process-wide
    generator made explicit.  The notebooks only sample relation lists. *)
Class Random (rng : Type) :=
  random_sample : rng → list relation → nat → list relation * rng.

(** What the [random] module documents for [sample] when
    [k <= len(population)]: a list of [k] elements chosen at distinct
    positions of the population. *)
Class RandomSpec (rng : Type) `{Random rng} :=
  random_sample_spec : ∀ (g : rng) (population : list relation) (k : nat),
    k ≤ length population →
    length (random_sample g population k).1 = k ∧
    (random_sample g population k).1 ⊆+ population.

(** A generator whose state is the list of numbers it will draw: each
    pick takes the element at the drawn position (modulo what is left)
    out of the pool. *)
Fixpoint draw_sample (g : list nat) (pool : list relation) (k : nat)
    : list relation * list nat :=
  match k with
  | O => ([], g)
  | S k' =>
    let j := hd 0 g `mod` length pool in
    match pool !! j with
    | Some x =>
      let '(xs, g') := draw_sample (tl g) (delete j pool) k' in
      (x :: xs, g')
    | None => ([], g)
    end
  end.

#[global] Instance draw_random : Random (list nat) := draw_sample.

(** ** The notebooks' globals *)

Record globals := {
  TRAIN_TYPE : string;
  KG_DEPTH : Z;
  kg_map : gmap string KG
}.

(** The section keys, local constants of both prompt functions. *)
Definition BACKGROUND : string := "### Background:".
Definition PLOTS_KEY : string := "### Plots:".
Definition INTRO_BLURB : string := "The quest related to the above information is as follows:".
Definition QUEST : string := "### Quest:".
Definition END_KEY : string := "### End".

(** ** Background composition *)

(** The three accumulators of the [text_kg] branch. *)
Record cstate := {
  background : string;
  completed_rels : list (string * string);
  completed_nodes : list string
}.

Definition init_cstate : cstate :=
  {| background := ""; completed_rels := []; completed_nodes := [] |}.

(** Body of [for rel in relations] in the inference notebook. *)
Definition kb_rel_generation (entity : string) (st : cstate) (rel : relation) : cstate :=
  {| background := background st +:+ entity +:+ " is " +:+ rel.1 +:+ " " +:+ rel.2 +:+ ". ";
     completed_rels := completed_rels st ++ [(entity, rel.2)];
     completed_nodes := completed_nodes st |}.

(** Body of [for kb in input['kbs']] in the inference notebook. *)
Definition kb_step_generation `{Random rng} (depth0 : Z)
    (sg : cstate * rng) (kb : KB) : cstate * rng :=
  let '(st, g) := sg in
  let entity := kb_name kb in
  let e_desc := kb_description kb in
  let e_type := kb_type kb in
  let e_relations := kb_relations kb in
  let bg := background st +:+ entity +:+ " is a " +:+ e_type +:+ ". " in
  let '(bg, relations, g) :=
    if decide (depth0 > 0)%Z then
      let bg :=
        if decide (entity ≠ e_desc)
        then bg +:+ entity +:+ " is " +:+ e_desc +:+ ". "
        else bg in
      let depth := (depth0 - 1)%Z in
      let depth :=
        if decide (depth > Z.of_nat (length e_relations))%Z
        then Z.of_nat (length e_relations)
        else depth in
      let '(relations, g) := random_sample g e_relations (Z.to_nat depth) in
      (bg, relations, g)
    else (bg, e_relations, g) in
  let st := foldl (kb_rel_generation entity)
              {| background := bg;
                 completed_rels := completed_rels st;
                 completed_nodes := completed_nodes st |} relations in
  ({| background := background st +:+ nl;
      completed_rels := completed_rels st;
      completed_nodes := completed_nodes st ++ [entity] |}, g).

(** Body of [for rel in e_relations] in the training notebook: the
    sentence ends in a full stop without a space. *)
Definition kb_rel_training (entity : string) (st : cstate) (rel : relation) : cstate :=
  {| background := background st +:+ entity +:+ " is " +:+ rel.1 +:+ " " +:+ rel.2 +:+ ".";
     completed_rels := completed_rels st ++ [(entity, rel.2)];
     completed_nodes := completed_nodes st |}.

(** Body of [for kb in input['kbs']] in the training notebook. *)
Definition kb_step_training (st : cstate) (kb : KB) : cstate :=
  let entity := kb_name kb in
  let e_desc := kb_description kb in
  let e_type := kb_type kb in
  let e_relations := kb_relations kb in
  let bg := background st +:+ entity +:+ " is a " +:+ e_type +:+ ". " in
  let bg :=
    if decide (entity ≠ e_desc)
    then bg +:+ entity +:+ " is " +:+ e_desc +:+ ". "
    else bg in
  let st := foldl (kb_rel_training entity)
              {| background := bg;
                 completed_rels := completed_rels st;
                 completed_nodes := completed_nodes st |} e_relations in
  {| background := background st +:+ nl;
     completed_rels := completed_rels st;
     completed_nodes := completed_nodes st ++ [entity] |}.

(** [if ent not in completed_nodes: ...], the introduction of a graph
    node; [who] is the name the first sentence is written with. *)
Definition introduce (who ent e_type e_desc : string) (st : cstate) : cstate :=
  if decide (ent ∉ completed_nodes st) then
    let bg := background st +:+ who +:+ " is a " +:+ e_type +:+ ". " in
    let bg :=
      if decide (e_desc ≠ ent)
      then bg +:+ ent +:+ " is " +:+ e_desc +:+ ". "
      else bg in
    {| background := bg +:+ nl;
       completed_rels := completed_rels st;
       completed_nodes := completed_nodes st ++ [ent] |}
  else st.

(** The three [if rel == ...] statements that phrase an edge, the same
    text in both notebooks. *)
Definition phrase_edge (ent1 ent2 e1_type rel : string) (bg : string) : string :=
  let bg :=
    if decide (rel = "connected to")
    then bg +:+ ent1 +:+ " is " +:+ rel +:+ " " +:+ ent2 +:+ ". "
    else bg in
  let bg :=
    if decide (rel = "present in") then
      if decide (e1_type = "location")
      then bg +:+ ent2 +:+ " is " +:+ rel +:+ " " +:+ ent2 +:+ ". "
      else bg +:+ ent1 +:+ " is " +:+ rel +:+ " " +:+ ent2 +:+ ". "
    else bg in
  let bg :=
    if decide (rel = "held by") then
      if decide (e1_type = "character")
      then bg +:+ ent2 +:+ " is " +:+ rel +:+ " " +:+ ent1 +:+ ". "
      else bg +:+ ent1 +:+ " is " +:+ rel +:+ " " +:+ ent2 +:+ ". "
    else bg in
  bg.

(** Body of [for ent1, ent2 in edges] in the inference notebook. *)
Definition edge_step_generation (kg : KG) (st : cstate) (e : string * string)
    : result cstate :=
  let '(ent1, ent2) := e in
  if decide ((ent1, ent2) ∈ completed_rels st ∨ (ent2, ent1) ∈ completed_rels st)
  then Ok st
  else
    e1_type ← node_attr kg ent1 "type";
    e1_desc ← node_attr kg ent1 "description";
    e2_type ← node_attr kg ent2 "type";
    e2_desc ← node_attr kg ent2 "description";
    let st := introduce ent1 ent1 e1_type e1_desc st in
    let st := introduce ent2 ent2 e2_type e2_desc st in
    rel ← edge_attr kg ent1 ent2 "label";
    let bg := phrase_edge ent1 ent2 e1_type rel (background st) in
    Ok {| background := bg +:+ nl;
          completed_rels := completed_rels st ++ [(ent1, ent2)];
          completed_nodes := completed_nodes st |}.

(** Body of [for ent1, ent2 in edges] in the training notebook: the
    introduction of [ent2] is written with [ent1]. *)
Definition edge_step_training (kg : KG) (st : cstate) (e : string * string)
    : result cstate :=
  let '(ent1, ent2) := e in
  if decide ((ent1, ent2) ∈ completed_rels st ∨ (ent2, ent1) ∈ completed_rels st)
  then Ok st
  else
    e1_type ← node_attr kg ent1 "type";
    e1_desc ← node_attr kg ent1 "description";
    e2_type ← node_attr kg ent2 "type";
    e2_desc ← node_attr kg ent2 "description";
    let st := introduce ent1 ent1 e1_type e1_desc st in
    let st := introduce ent1 ent2 e2_type e2_desc st in
    rel ← edge_attr kg ent1 ent2 "label";
    let bg := phrase_edge ent1 ent2 e1_type rel (background st) in
    Ok {| background := bg +:+ nl;
          completed_rels := completed_rels st ++ [(ent1, ent2)];
          completed_nodes := completed_nodes st |}.

(** Body of [for node in all_nodes] in the inference notebook. *)
Definition node_step_generation (kg : KG) (depth0 : Z) (plots : string)
    (st : cstate) (node : string * attrs) : result cstate :=
  let entity := node.1 in
  if str_in (lower entity) (lower plots) then
    let edges := dfs_edges kg entity (Some (Z.to_nat depth0)) in
    for_each (edge_step_generation kg) edges st
  else Ok st.

(** Body of [for node in all_nodes] in the training notebook. *)
Definition node_step_training (kg : KG) (plots : string)
    (st : cstate) (node : string * attrs) : result cstate :=
  let entity := node.1 in
  if str_in (lower entity) (lower plots) then
    let edges := dfs_edges kg entity None in
    for_each (edge_step_training kg) edges st
  else Ok st.

(** [background = f"{BACKGROUND}\n{background}"]. *)
Definition headed (st : cstate) : cstate :=
  {| background := BACKGROUND +:+ nl +:+ background st;
     completed_rels := completed_rels st;
     completed_nodes := completed_nodes st |}.

(** The [if TRAIN_TYPE == 'text_kg'] block of the inference notebook:
    the kb loop, then the graph loop when [KG_DEPTH > 0], then the
    header.  The generator state is returned also when the graph loop
    raises. *)
Definition text_kg_generation `{Random rng} (G : globals) (input : example)
    (plots : string) (g : rng) : result cstate * rng :=
  let '(st, g) := foldl (kb_step_generation (KG_DEPTH G)) (init_cstate, g) (ex_kbs input) in
  let r :=
    if decide (KG_DEPTH G > 0)%Z then
      kg ← getitem (kg_map G !! ex_game input);
      for_each (node_step_generation kg (KG_DEPTH G) plots) (kg_nodes kg) st
    else Ok st in
  (headed <$> r, g).

(** The [if TRAIN_TYPE == 'text_kg'] block of the training notebook. *)
Definition text_kg_training (G : globals) (input : example) (plots : string)
    : result cstate :=
  let st := foldl kb_step_training init_cstate (ex_kbs input) in
  kg ← getitem (kg_map G !! ex_game input);
  headed <$> for_each (node_step_training kg plots) (kg_nodes kg) st.

(** ** Quest rendering *)

(** Body of [for k,v in input['quest'].items()], the same in both
    notebooks.  [v[:-1]] is [removelast]; joining the zero-dimensional
    array that [np.char.capitalize] returns for a string raises
    [TypeError], and a list has no [capitalize]. *)
Definition quest_field (quest_str : string) (kv : string * qvalue) : result string :=
  let '(k, v) := kv in
  if decide (k = "description") then Ok quest_str
  else
    value ←
      (if decide (k = "tasks") then
         match v with
         | QList l =>
           caps ← np_char_capitalize (removelast l);
           Ok (nl +:+ " " +:+ join (nl +:+ " ") caps)
         | QStr _ => Raise TypeError
         end
       else
         match v with
         | QStr s => Ok (capitalize s)
         | QList _ => Raise AttributeError
         end);
    Ok (quest_str +:+ capitalize k +:+ ": " +:+ value +:+ nl).

Definition render_quest (quest : list (string * qvalue)) : result string :=
  for_each quest_field quest "".

(** ** Prompt assembly *)

(** The local [plots]: the header and the plot points, one per line. *)
Definition plots_of (input : example) : string :=
  PLOTS_KEY +:+ nl +:+ join nl (ex_plots input).

(** [create_generation_prompt_formats(input)], run-tuned-model.ipynb. *)
Definition create_generation_prompt_formats `{Random rng} (G : globals)
    (input : example) (g : rng) : result example * rng :=
  let blurb := INTRO_BLURB in
  let plots := plots_of input in
  let '(bg, g) :=
    if decide (TRAIN_TYPE G = "text_kg") then
      let '(r, g) := text_kg_generation G input plots g in
      (background <$> r, g)
    else (Ok "", g) in
  (background ← bg;
   quest_str ← render_quest (ex_quest input);
   let quest := QUEST +:+ nl +:+ quest_str in
   let end_ := END_KEY in
   let parts_p :=
     if decide (TRAIN_TYPE G ∈ ["no_kg"; "tree_kg"])
     then truthy [plots; blurb]
     else truthy [background; plots; blurb] in
   let parts_o := truthy [quest; end_] in
   let formatted_prompt := join (nl +:+ nl) parts_p in
   let formatted_output := join (nl +:+ nl) parts_o in
   Ok {| ex_id := ex_id input; ex_game := ex_game input;
         ex_plots := ex_plots input; ex_kbs := ex_kbs input;
         ex_quest := ex_quest input;
         ex_text := Some formatted_prompt;
         ex_output := Some formatted_output |}, g).

(** [create_training_prompt_formats(input)], finetune-llama2.ipynb. *)
Definition create_training_prompt_formats (G : globals) (input : example)
    : result example :=
  let blurb := INTRO_BLURB in
  let plots := plots_of input in
  background ←
    (if decide (TRAIN_TYPE G = "text_kg")
     then background <$> text_kg_training G input plots
     else Ok "");
  quest_str ← render_quest (ex_quest input);
  let quest := QUEST +:+ nl +:+ quest_str in
  let end_ := END_KEY in
  let parts :=
    if decide (TRAIN_TYPE G ∈ ["no_kg"; "tree_kg"])
    then truthy [plots; blurb; quest; end_]
    else truthy [background; plots; blurb; quest; end_] in
  let formatted_prompt := join (nl +:+ nl) parts in
  Ok {| ex_id := ex_id input; ex_game := ex_game input;
        ex_plots := ex_plots input; ex_kbs := ex_kbs input;
        ex_quest := ex_quest input;
        ex_text := Some formatted_prompt;
        ex_output := ex_output input |}.

(** ** The behaviour the specification describes, for comparison *)

(** Concatenation of a list of text fragments. *)
Definition cat (parts : list string) : string := foldr String.append "" parts.

(** The relation sentence of a graph edge, chosen by its label. *)
Definition relation_sentence (label e1 e1_type e2 : string) : string :=
  if decide (label = "connected to") then
    e1 +:+ " is connected to " +:+ e2 +:+ ". "
  else if decide (label = "present in") then
    if decide (e1_type = "location")
    then e2 +:+ " is present in " +:+ e2 +:+ ". "
    else e1 +:+ " is present in " +:+ e2 +:+ ". "
  else if decide (label = "held by") then
    if decide (e1_type = "character")
    then e2 +:+ " is held by " +:+ e1 +:+ ". "
    else e1 +:+ " is held by " +:+ e2 +:+ ". "
  else "".

(** The introduction of an entity: its type, then its description when
    that is not the name itself, then a line feed. *)
Definition introduction (ent e_type e_desc : string) : string :=
  ent +:+ " is a " +:+ e_type +:+ ". " +:+
  (if decide (e_desc ≠ ent) then ent +:+ " is " +:+ e_desc +:+ ". " else "") +:+ nl.

(** The sentences of the relations [rels] of [entity], each closed by
    [stop]. *)
Definition relation_sentences (entity stop : string) (rels : list relation) : string :=
  cat ((λ rel : relation, entity +:+ " is " +:+ rel.1 +:+ " " +:+ rel.2 +:+ stop) <$> rels).

(** The block of one kb entry whose emitted relations are [rels]. *)
Definition kb_block (with_desc : bool) (stop : string) (kb : KB) (rels : list relation) : string :=
  kb_name kb +:+ " is a " +:+ kb_type kb +:+ ". " +:+
  (if with_desc && bool_decide (kb_name kb ≠ kb_description kb)
   then kb_name kb +:+ " is " +:+ kb_description kb +:+ ". " else "") +:+
  relation_sentences (kb_name kb) stop rels +:+ nl.

(** The pairs recorded for the relations [rels] of [entity]. *)
Definition kb_pairs (entity : string) (rels : list relation) : list (string * string) :=
  (λ rel : relation, (entity, rel.2)) <$> rels.

(** The state after a kb entry whose emitted relations are [rels]. *)
Definition after_kb (with_desc : bool) (stop : string) (st : cstate) (kb : KB)
    (rels : list relation) : cstate :=
  {| background := background st +:+ kb_block with_desc stop kb rels;
     completed_rels := completed_rels st ++ kb_pairs (kb_name kb) rels;
     completed_nodes := completed_nodes st ++ [kb_name kb] |}.

(** The step of the kb loop from [before] to [after] emitted a sample of
    [min(depth - 1, len(relations))] relations of [kb]. *)
Definition emits_sample (depth0 : Z) (kb : KB) (before after : cstate) : Prop :=
  ∃ s, length s = Z.to_nat (depth0 - 1) `min` length (kb_relations kb) ∧
       s ⊆+ kb_relations kb ∧
       completed_rels after = completed_rels before ++ kb_pairs (kb_name kb) s.

(** The number of relations sampled for a kb entry at a positive depth:
    [min(depth - 1, len(relations))]. *)
Definition sample_size (depth0 : Z) (rels : list relation) : nat :=
  Z.to_nat (depth0 - 1) `min` length rels.

(** The samples the kb loop of the inference notebook draws, in order. *)
Fixpoint draws `{Random rng} (depth0 : Z) (kbs : list KB) (g : rng) : list (list relation) :=
  match kbs with
  | [] => []
  | kb :: kbs' =>
    if decide (depth0 > 0)%Z then
      let '(s, g') := random_sample g (kb_relations kb) (sample_size depth0 (kb_relations kb)) in
      s :: draws depth0 kbs' g'
    else []
  end.

(** The background of the kb loop when the relations emitted for each
    entry are given. *)
Definition kb_blocks (with_desc : bool) (stop : string) (kbs : list KB)
    (emitted : list (list relation)) : string :=
  cat (zip_with (kb_block with_desc stop) kbs emitted).

(** The relations the kb loop of the inference notebook emits. *)
Definition emitted_relations `{Random rng} (depth0 : Z) (kbs : list KB) (g : rng)
    : list (list relation) :=
  if decide (depth0 > 0)%Z then draws depth0 kbs g else kb_relations <$> kbs.

(** The state after the kb loop when the relations emitted for each
    entry are given. *)
Definition after_kbs (with_desc : bool) (stop : string) (st : cstate) (kbs : list KB)
    (emitted : list (list relation)) : cstate :=
  {| background := background st +:+ kb_blocks with_desc stop kbs emitted;
     completed_rels :=
       completed_rels st ++ concat (zip_with (λ kb, kb_pairs (kb_name kb)) kbs emitted);
     completed_nodes := completed_nodes st ++ (kb_name <$> kbs) |}.

(** The attribute lookups of an edge all succeed. *)
Definition edge_data_ok (kg : KG) (ent1 ent2 e1_type e1_desc e2_type e2_desc rel : string)
    : Prop :=
  node_attr kg ent1 "type" = Ok e1_type ∧
  node_attr kg ent1 "description" = Ok e1_desc ∧
  node_attr kg ent2 "type" = Ok e2_type ∧
  node_attr kg ent2 "description" = Ok e2_desc ∧
  edge_attr kg ent1 ent2 "label" = Ok rel.

(** The test that skips an edge of the graph loop. *)
Definition described (st : cstate) (ent1 ent2 : string) : Prop :=
  (ent1, ent2) ∈ completed_rels st ∨ (ent2, ent1) ∈ completed_rels st.

(** [v] is at most [n] hops away from [s] along the adjacency of [kg]. *)
Inductive within_hops (kg : KG) : nat → string → string → Prop :=
  | hops_here n s : within_hops kg n s s
  | hops_next n s u v :
      within_hops kg n s u → v ∈ neighbors kg u → within_hops kg (S n) s v.

(** No pair of [rels] occurs again later in the list, in either
    direction. *)
Definition described_once (rels : list (string * string)) : Prop :=
  ∀ i j a b, i < j → rels !! i = Some (a, b) →
    rels !! j ≠ Some (a, b) ∧ rels !! j ≠ Some (b, a).

(** Every pair of [added] is new when it is appended after [before]:
    neither it nor its reverse occurs earlier. *)
Fixpoint fresh_after (before added : list (string * string)) : Prop :=
  match added with
  | [] => True
  | p :: added' =>
    (p ∉ before) ∧ ((p.2, p.1) ∉ before) ∧ fresh_after (before ++ [p]) added'
  end.

(** [st'] extends the pairs of [st] by pairs that were new. *)
Definition rels_extended (st st' : cstate) : Prop :=
  ∃ added, completed_rels st' = completed_rels st ++ added ∧
           fresh_after (completed_rels st) added.

(** [st'] extends the nodes of [st] by distinct nodes that were new. *)
Definition nodes_extended (st st' : cstate) : Prop :=
  ∃ added, completed_nodes st' = completed_nodes st ++ added ∧
           NoDup added ∧ ∀ ent, ent ∈ added → ent ∉ completed_nodes st.

(** Number of positions of [hay] at which [needle] starts. *)
Fixpoint count_sub (needle hay : string) : nat :=
  (if String.prefix needle hay then 1 else 0) +
  match hay with
  | EmptyString => 0
  | String _ hay' => count_sub needle hay'
  end.

(** The row as the caller holds it after a call: the prompt functions
    return the row they were given, updated in place, and leave it
    untouched when they raise. *)
Definition row_after (input : example) (r : result example) : example :=
  match r with
  | Ok input' => input'
  | Raise _ => input
  end.

(** A quest the rendering loop accepts: [tasks] is a list with something
    left once its last element is dropped, every other rendered field is
    a string. *)
Definition renderable (kv : string * qvalue) : Prop :=
  kv.1 = "description" ∨
  (kv.1 = "tasks" ∧ ∃ l, kv.2 = QList l ∧ 2 ≤ length l) ∨
  (kv.1 ≠ "tasks" ∧ ∃ s, kv.2 = QStr s).

(** The text of one quest field. *)
Definition field_text (kv : string * qvalue) : string :=
  if decide (kv.1 = "description") then ""
  else
    capitalize kv.1 +:+ ": " +:+
    match kv.2 with
    | QStr s => capitalize s
    | QList l => cat ((λ t, nl +:+ " " +:+ capitalize t) <$> removelast l)
    end +:+ nl.

(** The state a block returned, for use on sample data. *)
Definition returned (r : result cstate) : cstate :=
  match r with
  | Ok st => st
  | Raise _ => init_cstate
  end.

(** Every adjacency of the graph carries the attributes the graph loop
    reads. *)
Definition kg_complete (kg : KG) : Prop :=
  ∀ u v, v ∈ neighbors kg u →
    ∃ e1_type e1_desc e2_type e2_desc rel,
      edge_data_ok kg u v e1_type e1_desc e2_type e2_desc rel.

(** ** Sample data *)

Definition node_data (e_type e_desc : string) : attrs :=
  <["type" := e_type]> (<["description" := e_desc]> ∅).

Definition edge_data (label : string) : attrs := {["label" := label]}.

(** Three nodes of a game graph, chained by two edges. *)
Definition kg_isles : KG := {|
  kg_nodes :=
    [("Delilah", node_data "character" "the leader of the Brigmore Witches");
     ("Brigmore Manor", node_data "location" "a lair for the city's outlaws");
     ("Empire of the Isles", node_data "location" "a kingdom")];
  kg_adj :=
    [("Delilah", [("Brigmore Manor", edge_data "present in")]);
     ("Brigmore Manor", [("Empire of the Isles", edge_data "connected to")]);
     ("Empire of the Isles", [])]
|}.

Definition kb_delilah : KB := {|
  kb_name := "Delilah";
  kb_description := "the leader of the Brigmore Witches";
  kb_type := "character";
  kb_relations := [("present in", "Brigmore Manor")]
|}.

(** A kb entry with three relations, two of them to the same target. *)
Definition kb_manor : KB := {|
  kb_name := "Brigmore Manor";
  kb_description := "a lair for the city's outlaws";
  kb_type := "location";
  kb_relations :=
    [("connected to", "Empire of the Isles");
     ("held by", "Delilah");
     ("present in", "Empire of the Isles")]
|}.

(** Two entries that name each other. *)
Definition kb_manor_linked : KB := {|
  kb_name := "Brigmore Manor";
  kb_description := "a lair for the city's outlaws";
  kb_type := "location";
  kb_relations := [("connected to", "Empire of the Isles")]
|}.

Definition kb_empire_linked : KB := {|
  kb_name := "Empire of the Isles";
  kb_description := "a kingdom";
  kb_type := "location";
  kb_relations := [("connected to", "Brigmore Manor")]
|}.

Definition row (kbs : list KB) (quest : list (string * qvalue)) : example := {|
  ex_id := "q1";
  ex_game := "DH";
  ex_plots := ["Delilah and her coven threaten everyone"; "Delilah must be stopped"];
  ex_kbs := kbs;
  ex_quest := quest;
  ex_text := None;
  ex_output := None
|}.

Definition quest_three : list (string * qvalue) :=
  [("title", QStr "the brigmore conspiracy");
   ("description", QStr "a long story");
   ("tasks", QList ["find x"; "kill y"; "report"])].

Definition quest_one : list (string * qvalue) :=
  [("title", QStr "the brigmore conspiracy");
   ("tasks", QList ["report"])].

Definition notebook (train_type : string) (depth0 : Z) (reg : gmap string KG) : globals :=
  {| TRAIN_TYPE := train_type; KG_DEPTH := depth0; kg_map := reg |}.

Definition registry : gmap string KG := {["DH" := kg_isles]}.

(** ** The other helpers of the notebooks *)

(** [if max_length:] on the value [getattr] returned: [None] and [0] are
    falsy. *)
Definition truthy_length (max_length : option Z) : bool :=
  match max_length with
  | Some n => negb (n =? 0)%Z
  | None => false
  end.

(** The [for length_setting in [...]] loop of [get_max_length], with its
    [break]; [config] holds the integer attributes of [model.config], an
    attribute that is missing or [None] has no entry. *)
Fixpoint scan_length_settings (config : gmap string Z) (settings : list string)
    (max_length : option Z) : option Z :=
  match settings with
  | [] => max_length
  | length_setting :: rest =>
    let max_length := config !! length_setting in
    if truthy_length max_length then max_length
    else scan_length_settings config rest max_length
  end.

(** [get_max_length(model)], the same in both notebooks. *)
Definition get_max_length (config : gmap string Z) : Z :=
  let max_length :=
    scan_length_settings config
      ["n_positions"; "max_position_embeddings"; "seq_length"] None in
  if truthy_length max_length then default 1024%Z max_length else 1024%Z.

(** [create_input_prompt(background_info, plots)], run-tuned-model.ipynb. *)
Definition create_input_prompt (background_info plots : list string) : string :=
  let text := "" in
  let text :=
    if decide (background_info ≠ []) then
      let text := text +:+ "### Background:" +:+ nl +:+ nl in
      text +:+ join nl background_info +:+ nl +:+ nl
    else text in
  let text := text +:+ "### Plots:" +:+ nl +:+ nl in
  let text := text +:+ join nl plots +:+ nl in
  let text := text +:+ nl +:+ "### Quest:" +:+ nl in
  text.

(** [name.split('.')]: the pieces between the dots, empty pieces kept. *)
Fixpoint split_dot (name : string) : list string :=
  match name with
  | EmptyString => [""]
  | String c rest =>
    if decide (c = "."%char) then "" :: split_dot rest
    else
      match split_dot rest with
      | [] => [String c ""]
      | piece :: pieces => String c piece :: pieces
      end
  end.

(** [names[0] if len(names) == 1 else names[-1]]. *)
Definition module_leaf (name : string) : string :=
  let names := split_dot name in
  if decide (length names = 1) then default "" (names !! 0)
  else default "" (last names).

(** [find_all_linear_names(model)], finetune-llama2.ipynb.  A module of
    [model.named_modules()] is its dotted name and whether it is an
    instance of [bnb.nn.Linear4bit]; the result is the set whose [list]
    the function returns. *)
Definition find_all_linear_names (named_modules : list (string * bool)) : gset string :=
  let lora_module_names :=
    foldl (λ (acc : gset string) (m : string * bool),
             if m.2 then acc ∪ {[module_leaf m.1]} else acc)
          ∅ named_modules in
  if decide ("lm_head" ∈ lora_module_names)
  then lora_module_names ∖ {["lm_head"]}
  else lora_module_names.

(** A parameter of [model.named_parameters()]: [param.numel()], the
    attribute [ds_numel] when it has one, and [requires_grad]. *)
Record parameter := {
  numel : N;
  ds_numel : option N;
  requires_grad : bool
}.

(** The exceptions of [print_trainable_parameters]. *)
Inductive print_exn := ValueError | ZeroDivisionError.

(** The integers the message of [print_trainable_parameters] is
    formatted from; its percentage is the float quotient
    [100 * trainable_params / all_param]. *)
Record report := {
  all_param : N;
  trainable_params : N
}.

(** Body of [for _, param in model.named_parameters()]. *)
Definition count_parameter (acc : report) (param : parameter) : report :=
  let num_params := numel param in
  let num_params :=
    match ds_numel param with
    | Some n => if (num_params =? 0)%N then n else num_params
    | None => num_params
    end in
  {| all_param := (all_param acc + num_params)%N;
     trainable_params :=
       if requires_grad param
       then (trainable_params acc + num_params)%N
       else trainable_params acc |}.

(** [print_trainable_parameters(model, use_4bit)], finetune-llama2.ipynb.
    With [use_4bit] the statement [trainable_params /= 2] makes a float,
    which the format code [d] of the message rejects with [ValueError]
    before the percentage is computed; without it the percentage divides
    by [all_param]. *)
Definition print_trainable_parameters (named_parameters : list parameter)
    (use_4bit : bool) : print_exn + report :=
  let counts :=
    foldl count_parameter {| all_param := 0; trainable_params := 0 |} named_parameters in
  if use_4bit then inl ValueError
  else if (all_param counts =? 0)%N then inl ZeroDivisionError
  else inr counts.

(** [dataset.map(function)] row by row: the first row on which the
    function raises ends the call. *)
Fixpoint map_rows {A B} (f : A → result B) (rows : list A) : result (list B) :=
  match rows with
  | [] => Ok []
  | row :: rows' => row' ← f row; rows'' ← map_rows f rows'; Ok (row' :: rows'')
  end.

(** A row after tokenization: the columns that are left once [id],
    [game], [kbs], [plots] and [quest] are removed. *)
Record sample := {
  s_text : option string;
  s_output : option string;
  input_ids : list nat;
  attention_mask : list nat
}.

(** [preprocess_dataset(tokenizer, max_length, dataset)],
    finetune-llama2.ipynb; [tokenizer max_length text] stands for
    [tokenizer(text, max_length=max_length, truncation=True)] and gives
    [input_ids] and [attention_mask]. *)
Definition preprocess_dataset (tokenizer : Z → string → list nat * list nat)
    (G : globals) (max_length : Z) (dataset : list example) : result (list sample) :=
  match map_rows (create_training_prompt_formats G) dataset with
  | Raise e => Raise e
  | Ok dataset =>
    let dataset :=
      (λ row : example,
         let encoded := tokenizer max_length (default "" (ex_text row)) in
         {| s_text := ex_text row; s_output := ex_output row;
            input_ids := encoded.1; attention_mask := encoded.2 |}) <$> dataset in
    Ok (filter (λ s, (Z.of_nat (length (input_ids s)) < max_length)%Z) dataset)
  end.

(** The row the prompt functions return. *)
Definition with_prompt (input : example) (prompt : string) (completion : option string)
    : example :=
  {| ex_id := ex_id input; ex_game := ex_game input;
     ex_plots := ex_plots input; ex_kbs := ex_kbs input;
     ex_quest := ex_quest input;
     ex_text := Some prompt; ex_output := completion |}.

Definition blank : string := nl +:+ nl.

Definition completion_of (quest_str : string) : string :=
  (QUEST +:+ nl +:+ quest_str) +:+ blank +:+ END_KEY.

(** The last character of a text. *)
Fixpoint last_ascii (s : string) : option ascii :=
  match s with
  | EmptyString => None
  | String c EmptyString => Some c
  | String _ rest => last_ascii rest
  end.

(** [st'] keeps the background of [st] and writes after it. *)
Definition background_extended (st st' : cstate) : Prop :=
  ∃ rest, background st' = background st +:+ rest.

(** The settings [get_max_length] looks at, in its order. *)
Definition length_settings : list string :=
  ["n_positions"; "max_position_embeddings"; "seq_length"].

(** What [print_trainable_parameters] counts for a parameter. *)
Definition counted (param : parameter) : N :=
  if (numel param =? 0)%N then default 0%N (ds_numel param) else numel param.

Definition total (counts : list N) : N := foldr N.add 0%N counts.

Definition dotless (piece : string) : Prop := str_in "." piece = false.

(** ** Further sample data *)

(** A graph whose only edge has no label. *)
Definition kg_unlabelled : KG := {|
  kg_nodes :=
    [("Delilah", node_data "character" "the leader of the Brigmore Witches");
     ("Brigmore Manor", node_data "location" "a lair for the city's outlaws")];
  kg_adj :=
    [("Delilah", [("Brigmore Manor", ∅)]);
     ("Brigmore Manor", [])]
|}.

(** A tokenizer with one token per character, truncated to [max_length]. *)
Definition char_tokenizer (max_length : Z) (text : string) : list nat * list nat :=
  let ids := take (Z.to_nat max_length) (nat_of_ascii <$> list_ascii_of_string text) in
  (ids, replicate (length ids) 1).

(** ** The walks and the blocks of the graph loop *)

(** A node the graph loop walks from: a node of the graph whose
    lower-cased name occurs in the lower-cased plots text. *)
Definition plot_matched (kg : KG) (plots source : string) : Prop :=
  (∃ data, (source, data) ∈ kg_nodes kg) ∧ str_in (lower source) (lower plots) = true.

(** An edge of one of the walks of the graph loop, from a plot-matched
    node and with the given depth limit. *)
Definition walked (kg : KG) (depth_limit : option nat) (plots : string)
    (e : string * string) : Prop :=
  ∃ source, plot_matched kg plots source ∧ e ∈ dfs_edges kg source depth_limit.

(** The introduction of [ent] with the first sentence written for
    [who]. *)
Definition introduction_as (who ent e_type e_desc : string) : string :=
  who +:+ " is a " +:+ e_type +:+ ". " +:+
  (if decide (e_desc ≠ ent) then ent +:+ " is " +:+ e_desc +:+ ". " else "") +:+ nl.

(** The text the graph loop writes for an edge it processes, with the
    pair it records: the introduction of each end node unless it is
    completed, that of the target under the name of one of the two ends,
    then the relation sentence of the edge and a line feed. *)
Definition edge_block (kg : KG) (b : (string * string) * string) : Prop :=
  ∃ e1_type e1_desc e2_type e2_desc rel intro1 intro2 who,
    edge_data_ok kg b.1.1 b.1.2 e1_type e1_desc e2_type e2_desc rel ∧
    (intro1 = "" ∨ intro1 = introduction b.1.1 e1_type e1_desc) ∧
    (who = b.1.1 ∨ who = b.1.2) ∧
    (intro2 = "" ∨ intro2 = introduction_as who b.1.2 e2_type e2_desc) ∧
    b.2 = intro1 +:+ intro2 +:+ relation_sentence rel b.1.1 e1_type b.1.2 +:+ nl.

(** From [st] to [st'] the graph loop wrote the blocks of edges that
    satisfy [P], one block for each pair it recorded, in their order, and
    nothing else. *)
Definition graph_extended (kg : KG) (P : string * string → Prop) (st st' : cstate) : Prop :=
  ∃ blocks : list ((string * string) * string),
    background st' = background st +:+ cat blocks.*2 ∧
    completed_rels st' = completed_rels st ++ blocks.*1 ∧
    Forall (λ b, P b.1 ∧ edge_block kg b) blocks.

(** ** The samples of a call *)

(** The generator state after the draws of the kb loop: one
    [random.sample] for each kb entry at a positive depth, in the order
    of the entries, none otherwise. *)
Fixpoint after_draws `{Random rng} (depth0 : Z) (kbs : list KB) (g : rng) : rng :=
  match kbs with
  | [] => g
  | kb :: kbs' =>
    if decide (depth0 > 0)%Z then
      after_draws depth0 kbs'
        (random_sample g (kb_relations kb) (sample_size depth0 (kb_relations kb))).2
    else g
  end.

(** The row of the inference notebook as a function of the samples
    drawn for the kb entries, with no generator: in [text_kg] mode the
    kb blocks of the samples (of all the relations at a depth of zero or
    less), the graph loop at a positive depth, the header, and the
    prompt around them; in the other modes the prompt alone. *)
Definition prompt_of_samples (G : globals) (input : example)
    (samples : list (list relation)) : result example :=
  let kbs := ex_kbs input in
  let plots := plots_of input in
  if decide (TRAIN_TYPE G = "text_kg") then
    st ← (if decide (KG_DEPTH G > 0)%Z then
            kg ← getitem (kg_map G !! ex_game input);
            for_each (node_step_generation kg (KG_DEPTH G) plots) (kg_nodes kg)
              (after_kbs true ". " init_cstate kbs samples)
          else Ok (after_kbs false ". " init_cstate kbs (kb_relations <$> kbs)));
    quest_str ← render_quest (ex_quest input);
    Ok (with_prompt input
          (background (headed st) +:+ blank +:+ plots +:+ blank +:+ INTRO_BLURB)
          (Some (completion_of quest_str)))
  else
    quest_str ← render_quest (ex_quest input);
    Ok (with_prompt input (plots +:+ blank +:+ INTRO_BLURB)
          (Some (completion_of quest_str))).

(** ** A graph with two locations in the same place *)

Definition kg_castle : KG := {|
  kg_nodes :=
    [("Attic", node_data "location" "a dusty room");
     ("Barn", node_data "location" "a shed");
     ("Castle", node_data "location" "a fortress")];
  kg_adj :=
    [("Attic", [("Castle", edge_data "present in")]);
     ("Barn", [("Castle", edge_data "present in")]);
     ("Castle", [])]
|}.

Definition row_castle : example := {|
  ex_id := "q2";
  ex_game := "CS";
  ex_plots := ["The attic and the barn are haunted"];
  ex_kbs := [];
  ex_quest := [];
  ex_text := None;
  ex_output := None
|}.

Definition registry_castle : gmap string KG := {["CS" := kg_castle]}.

(** ** Text fragments *)

Lemma append_cons (x : ascii) (a b : string) : String x a +:+ b = String x (a +:+ b).
Proof. reflexivity. Qed.

Lemma append_assoc (a b c : string) : (a +:+ b) +:+ c = a +:+ b +:+ c.
Proof. induction a as [|x a IH]; [done|]. by rewrite !append_cons, IH. Qed.

Lemma append_empty_r (a : string) : a +:+ "" = a.
Proof. induction a as [|x a IH]; [done|]. by rewrite append_cons, IH. Qed.

Lemma cat_cons (x : string) (l : list string) : cat (x :: l) = x +:+ cat l.
Proof. reflexivity. Qed.

Lemma cat_app (l k : list string) : cat (l ++ k) = cat l +:+ cat k.
Proof.
  induction l as [|x l IH]; [done|].
  change (cat ((x :: l) ++ k)) with (x +:+ cat (l ++ k)).
  change (cat (x :: l)) with (x +:+ cat l).
  by rewrite IH, append_assoc.
Qed.

Lemma relation_sentences_snoc entity stop rels rel :
  relation_sentences entity stop (rels ++ [rel]) =
    relation_sentences entity stop rels +:+ entity +:+ " is " +:+ rel.1 +:+ " " +:+ rel.2 +:+ stop.
Proof.
  unfold relation_sentences. rewrite fmap_app, cat_app. f_equal.
  simpl. by rewrite append_empty_r.
Qed.

Lemma join_indented (sep x : string) (rest : list string) :
  sep +:+ join sep (x :: rest) = cat ((λ t, sep +:+ t) <$> (x :: rest)).
Proof.
  revert x. induction rest as [|y rest IH]; intros x.
  - rewrite fmap_cons, cat_cons. simpl. by rewrite append_empty_r.
  - change (join sep (x :: y :: rest)) with (x +:+ sep +:+ join sep (y :: rest)).
    by rewrite IH, (fmap_cons _ x), cat_cons, append_assoc.
Qed.

(** ** Loops that may raise *)

Lemma fmap_Ok_inv {A B} (f : A → B) (r : result A) (b : B) :
  f <$> r = Ok b → ∃ a, r = Ok a ∧ b = f a.
Proof. destruct r as [a|e]; [|done]. intros [= <-]. by exists a. Qed.

Lemma foldl_step {A B} (f : A → B → A) (a : A) (x : B) (l : list B) :
  foldl f a (x :: l) = foldl f (f a x) l.
Proof. reflexivity. Qed.

Lemma for_each_invariant {T A} (P : T → T → Prop) (body : T → A → result T) :
  (∀ s, P s s) →
  (∀ s1 s2 s3, P s1 s2 → P s2 s3 → P s1 s3) →
  (∀ s x s', body s x = Ok s' → P s s') →
  ∀ xs s s', for_each body xs s = Ok s' → P s s'.
Proof.
  intros Hrefl Htrans Hbody xs.
  induction xs as [|x xs IH]; intros s s' Hrun; simpl in Hrun.
  - injection Hrun as ->. apply Hrefl.
  - destruct (body s x) as [s1|] eqn:Hx; [|done].
    eapply Htrans; [by eapply Hbody | by apply IH].
Qed.

Lemma for_each_ok {T A} (I : T → Prop) (body : T → A → result T) (xs : list A) :
  (∀ s x, I s → x ∈ xs → ∃ s', body s x = Ok s' ∧ I s') →
  ∀ s, I s → ∃ s', for_each body xs s = Ok s' ∧ I s'.
Proof.
  induction xs as [|x xs IH]; intros Hbody s Hs; simpl.
  - by exists s.
  - destruct (Hbody s x Hs) as (s1 & -> & Hs1); [by left|]. simpl.
    apply IH; [|done]. intros s2 y Hs2 Hy. apply Hbody; [done | by right].
Qed.

(** ** The phrasing of an edge *)

(** The three [if] statements amount to one dispatch on the label. *)
Lemma phrase_edge_sentence ent1 ent2 e1_type rel bg :
  phrase_edge ent1 ent2 e1_type rel bg = bg +:+ relation_sentence rel ent1 e1_type ent2.
Proof.
  unfold phrase_edge, relation_sentence.
  destruct (decide (rel = "connected to")) as [->|H1].
  { simpl. done. }
  destruct (decide (rel = "present in")) as [->|H2].
  { simpl. by destruct (decide (e1_type = "location")). }
  destruct (decide (rel = "held by")) as [->|H3].
  { simpl. by destruct (decide (e1_type = "character")). }
  by rewrite append_empty_r.
Qed.

(** ** Introductions *)

Lemma introduce_new who ent e_type e_desc st :
  ent ∉ completed_nodes st →
  introduce who ent e_type e_desc st =
    {| background :=
         background st +:+ who +:+ " is a " +:+ e_type +:+ ". " +:+
         (if decide (e_desc ≠ ent) then ent +:+ " is " +:+ e_desc +:+ ". " else "") +:+ nl;
       completed_rels := completed_rels st;
       completed_nodes := completed_nodes st ++ [ent] |}.
Proof.
  intros Hnew. unfold introduce. rewrite decide_True by done.
  f_equal. destruct (decide (e_desc ≠ ent)); by rewrite !append_assoc.
Qed.

Lemma introduce_old who ent e_type e_desc st :
  ent ∈ completed_nodes st → introduce who ent e_type e_desc st = st.
Proof. intros Hold. unfold introduce. by rewrite decide_False by tauto. Qed.

Lemma introduce_rels who ent e_type e_desc st :
  completed_rels (introduce who ent e_type e_desc st) = completed_rels st.
Proof. unfold introduce. by destruct (decide (ent ∉ completed_nodes st)). Qed.

Lemma introduce_nodes who ent e_type e_desc st :
  completed_nodes (introduce who ent e_type e_desc st) =
    completed_nodes st ++ (if decide (ent ∈ completed_nodes st) then [] else [ent]).
Proof.
  unfold introduce.
  destruct (decide (ent ∉ completed_nodes st)) as [Hn|Hn].
  - simpl. by rewrite decide_False by done.
  - rewrite decide_True by (by apply dec_stable). by rewrite app_nil_r.
Qed.

(** ** One edge of the graph loop *)

Lemma edge_step_generation_skip kg st ent1 ent2 :
  described st ent1 ent2 → edge_step_generation kg st (ent1, ent2) = Ok st.
Proof. intros H. unfold edge_step_generation. by rewrite decide_True. Qed.

Lemma edge_step_generation_run kg st ent1 ent2 e1_type e1_desc e2_type e2_desc rel :
  ¬ described st ent1 ent2 →
  edge_data_ok kg ent1 ent2 e1_type e1_desc e2_type e2_desc rel →
  let st1 := introduce ent2 ent2 e2_type e2_desc (introduce ent1 ent1 e1_type e1_desc st) in
  edge_step_generation kg st (ent1, ent2) =
    Ok {| background := background st1 +:+ relation_sentence rel ent1 e1_type ent2 +:+ nl;
          completed_rels := completed_rels st ++ [(ent1, ent2)];
          completed_nodes := completed_nodes st1 |}.
Proof.
  intros Hnew (H1 & H2 & H3 & H4 & H5). simpl.
  unfold edge_step_generation. rewrite decide_False by done.
  rewrite H1, H2, H3, H4. simpl. rewrite H5. simpl.
  by rewrite phrase_edge_sentence, append_assoc, !introduce_rels.
Qed.

Lemma edge_step_training_run kg st ent1 ent2 e1_type e1_desc e2_type e2_desc rel :
  ¬ described st ent1 ent2 →
  edge_data_ok kg ent1 ent2 e1_type e1_desc e2_type e2_desc rel →
  let st1 := introduce ent1 ent2 e2_type e2_desc (introduce ent1 ent1 e1_type e1_desc st) in
  edge_step_training kg st (ent1, ent2) =
    Ok {| background := background st1 +:+ relation_sentence rel ent1 e1_type ent2 +:+ nl;
          completed_rels := completed_rels st ++ [(ent1, ent2)];
          completed_nodes := completed_nodes st1 |}.
Proof.
  intros Hnew (H1 & H2 & H3 & H4 & H5). simpl.
  unfold edge_step_training. rewrite decide_False by done.
  rewrite H1, H2, H3, H4. simpl. rewrite H5. simpl.
  by rewrite phrase_edge_sentence, append_assoc, !introduce_rels.
Qed.

(** An edge whose target is new gets the target's own introduction in
    the inference notebook. *)
Lemma generation_introduces_target kg st ent1 ent2 e1_type e1_desc e2_type e2_desc rel :
  ¬ described st ent1 ent2 →
  edge_data_ok kg ent1 ent2 e1_type e1_desc e2_type e2_desc rel →
  let st0 := introduce ent1 ent1 e1_type e1_desc st in
  ent2 ∉ completed_nodes st0 →
  ∃ st', edge_step_generation kg st (ent1, ent2) = Ok st' ∧
    background st' =
      background st0 +:+ introduction ent2 e2_type e2_desc +:+
      relation_sentence rel ent1 e1_type ent2 +:+ nl ∧
    completed_nodes st' = completed_nodes st0 ++ [ent2].
Proof.
  intros Hnew Hdata st0 Hfresh. eexists. split.
  - by eapply edge_step_generation_run.
  - rewrite introduce_new by done. cbn [background completed_nodes].
    split; [|done]. unfold introduction. by rewrite (append_assoc (background st0)).
Qed.

(** The training notebook writes that introduction with the source's
    name. *)
Lemma training_introduces_source_name kg st ent1 ent2 e1_type e1_desc e2_type e2_desc rel :
  ¬ described st ent1 ent2 →
  edge_data_ok kg ent1 ent2 e1_type e1_desc e2_type e2_desc rel →
  let st0 := introduce ent1 ent1 e1_type e1_desc st in
  ent2 ∉ completed_nodes st0 →
  ∃ st', edge_step_training kg st (ent1, ent2) = Ok st' ∧
    background st' =
      background st0 +:+
      (ent1 +:+ " is a " +:+ e2_type +:+ ". " +:+
       (if decide (e2_desc ≠ ent2) then ent2 +:+ " is " +:+ e2_desc +:+ ". " else "") +:+ nl) +:+
      relation_sentence rel ent1 e1_type ent2 +:+ nl ∧
    completed_nodes st' = completed_nodes st0 ++ [ent2].
Proof.
  intros Hnew Hdata st0 Hfresh. eexists. split.
  - by eapply edge_step_training_run.
  - rewrite introduce_new by done. cbn [background completed_nodes].
    split; [|done]. unfold introduction. by rewrite (append_assoc (background st0)).
Qed.

(** ** The kb loop *)

Lemma kb_rel_generation_fold entity st rels :
  foldl (kb_rel_generation entity) st rels =
    {| background := background st +:+ relation_sentences entity ". " rels;
       completed_rels := completed_rels st ++ kb_pairs entity rels;
       completed_nodes := completed_nodes st |}.
Proof.
  induction rels as [|rel rels IH] using rev_ind.
  - simpl. rewrite app_nil_r. unfold relation_sentences. simpl.
    rewrite append_empty_r. by destruct st.
  - rewrite foldl_snoc, IH. unfold kb_rel_generation, kb_pairs. simpl.
    rewrite relation_sentences_snoc, fmap_app, !append_assoc, <- !(assoc_L (++)).
    done.
Qed.

Lemma kb_rel_training_fold entity st rels :
  foldl (kb_rel_training entity) st rels =
    {| background := background st +:+ relation_sentences entity "." rels;
       completed_rels := completed_rels st ++ kb_pairs entity rels;
       completed_nodes := completed_nodes st |}.
Proof.
  induction rels as [|rel rels IH] using rev_ind.
  - simpl. rewrite app_nil_r. unfold relation_sentences. simpl.
    rewrite append_empty_r. by destruct st.
  - rewrite foldl_snoc, IH. unfold kb_rel_training, kb_pairs. simpl.
    rewrite relation_sentences_snoc, fmap_app, !append_assoc, <- !(assoc_L (++)).
    done.
Qed.

Lemma sample_size_cap (depth0 : Z) (rels : list relation) :
  (depth0 > 0)%Z →
  Z.to_nat (if decide (depth0 - 1 > Z.of_nat (length rels))%Z
            then Z.of_nat (length rels) else (depth0 - 1)%Z) = sample_size depth0 rels.
Proof. intros Hpos. unfold sample_size. case_decide; lia. Qed.

Lemma sample_size_le depth0 rels : sample_size depth0 rels ≤ length rels.
Proof. unfold sample_size. lia. Qed.

Lemma kb_step_training_all st kb :
  kb_step_training st kb = after_kb true "." st kb (kb_relations kb).
Proof.
  unfold kb_step_training.
  rewrite kb_rel_training_fold. simpl. unfold after_kb, kb_block. simpl.
  f_equal.
  destruct (decide (kb_name kb ≠ kb_description kb)).
  - rewrite bool_decide_eq_true_2 by done. by rewrite !append_assoc.
  - rewrite bool_decide_eq_false_2 by done. by rewrite !append_assoc.
Qed.

Lemma after_kbs_nil with_desc stop st emitted :
  after_kbs with_desc stop st [] emitted = st.
Proof.
  unfold after_kbs, kb_blocks. simpl.
  rewrite append_empty_r, !app_nil_r. by destruct st.
Qed.

Lemma after_kbs_cons with_desc stop st kb kbs rels emitted :
  after_kbs with_desc stop (after_kb with_desc stop st kb rels) kbs emitted =
  after_kbs with_desc stop st (kb :: kbs) (rels :: emitted).
Proof.
  unfold after_kbs, after_kb, kb_blocks. simpl.
  by rewrite append_assoc, <- !(assoc_L (++)).
Qed.

Lemma kb_loop_training kbs :
  ∀ st, foldl kb_step_training st kbs = after_kbs true "." st kbs (kb_relations <$> kbs).
Proof.
  induction kbs as [|kb kbs IH]; intros st.
  - by rewrite after_kbs_nil.
  - rewrite foldl_step, kb_step_training_all, IH. apply after_kbs_cons.
Qed.

Section kb_loop_generation.
Context `{!Random rng}.

Lemma kb_step_generation_sampled depth0 st (g : rng) kb :
  (depth0 > 0)%Z →
  kb_step_generation depth0 (st, g) kb =
    let s := random_sample g (kb_relations kb) (sample_size depth0 (kb_relations kb)) in
    (after_kb true ". " st kb s.1, s.2).
Proof.
  intros Hpos. unfold kb_step_generation. rewrite decide_True by done.
  rewrite sample_size_cap by done. simpl.
  destruct (random_sample g (kb_relations kb) _) as [s g']. simpl.
  rewrite kb_rel_generation_fold. simpl. unfold after_kb, kb_block. simpl.
  f_equal. f_equal.
  destruct (decide (kb_name kb ≠ kb_description kb)).
  - rewrite bool_decide_eq_true_2 by done. by rewrite !append_assoc.
  - rewrite bool_decide_eq_false_2 by done. by rewrite !append_assoc.
Qed.

Lemma kb_step_generation_all depth0 st (g : rng) kb :
  (depth0 ≤ 0)%Z →
  kb_step_generation depth0 (st, g) kb = (after_kb false ". " st kb (kb_relations kb), g).
Proof.
  intros Hpos. unfold kb_step_generation. rewrite decide_False by lia.
  rewrite kb_rel_generation_fold. simpl. unfold after_kb, kb_block. simpl.
  by rewrite !append_assoc.
Qed.

Lemma draws_cons depth0 kb kbs (g : rng) :
  (depth0 > 0)%Z →
  draws depth0 (kb :: kbs) g =
    let s := random_sample g (kb_relations kb) (sample_size depth0 (kb_relations kb)) in
    s.1 :: draws depth0 kbs s.2.
Proof.
  intros Hpos. simpl. rewrite decide_True by done.
  by destruct (random_sample g _ _).
Qed.

Lemma kb_loop_generation depth0 kbs :
  ∀ st (g : rng),
    (foldl (kb_step_generation depth0) (st, g) kbs).1 =
      after_kbs (bool_decide (depth0 > 0)%Z) ". " st kbs (emitted_relations depth0 kbs g).
Proof.
  unfold emitted_relations.
  induction kbs as [|kb kbs IH]; intros st g.
  - by rewrite after_kbs_nil.
  - rewrite foldl_step. destruct (decide (depth0 > 0)%Z) as [Hpos|Hpos].
    + rewrite kb_step_generation_sampled, draws_cons by done.
      cbv zeta. rewrite IH. rewrite bool_decide_eq_true_2 by done.
      apply after_kbs_cons.
    + rewrite kb_step_generation_all by lia.
      rewrite IH. rewrite bool_decide_eq_false_2 by done.
      apply after_kbs_cons.
Qed.

Lemma kb_loop_generation_all depth0 kbs :
  (depth0 ≤ 0)%Z →
  ∀ st (g : rng),
    foldl (kb_step_generation depth0) (st, g) kbs =
      (after_kbs false ". " st kbs (kb_relations <$> kbs), g).
Proof.
  intros Hle. induction kbs as [|kb kbs IH]; intros st g.
  - by rewrite after_kbs_nil.
  - rewrite foldl_step, kb_step_generation_all by done. rewrite IH.
    f_equal. apply after_kbs_cons.
Qed.

End kb_loop_generation.

(** ** The sample generator *)

Lemma draw_sample_spec k :
  ∀ (g : list nat) (pool : list relation),
    k ≤ length pool →
    length (draw_sample g pool k).1 = k ∧ (draw_sample g pool k).1 ⊆+ pool.
Proof.
  induction k as [|k IH]; intros g pool Hk; simpl.
  - split; [done | apply submseteq_nil_l].
  - assert (hd 0 g `mod` length pool < length pool) as Hj
      by (apply Nat.mod_upper_bound; lia).
    destruct (lookup_lt_is_Some_2 pool _ Hj) as [x Hx]. rewrite Hx.
    destruct (IH (tl g) (delete (hd 0 g `mod` length pool) pool)) as [Hlen Hsub].
    { rewrite length_delete by eauto. lia. }
    destruct (draw_sample (tl g) _ k) as [xs g']. simpl in *. split; [lia|].
    rewrite (delete_Permutation pool _ x Hx). by apply submseteq_skip.
Qed.

#[global] Instance draw_random_spec : RandomSpec (list nat).
Proof. intros g pool k. apply draw_sample_spec. Qed.

(** ** The depth-first walk *)

Lemma dfs_expand_nil kg d parent visited :
  dfs_expand kg d parent [] visited = ([], visited).
Proof. by destruct d. Qed.

Lemma dfs_expand_cons kg d parent child rest visited :
  dfs_expand kg d parent (child :: rest) visited =
    if decide (child ∈ visited) then dfs_expand kg d parent rest visited
    else
      let below :=
        match d with
        | O => ([], child :: visited)
        | S d' => dfs_expand kg d' child (neighbors kg child) (child :: visited)
        end in
      let after := dfs_expand kg d parent rest below.2 in
      ((parent, child) :: below.1 ++ after.1, after.2).
Proof.
  destruct d; simpl; destruct (decide (child ∈ visited)); try done.
  - by destruct (_ rest (child :: visited)).
  - destruct (dfs_expand kg d child _ _) as [below v1]. simpl.
    by destruct (_ rest v1).
Qed.

Lemma within_hops_mono kg n m s v :
  n ≤ m → within_hops kg n s v → within_hops kg m s v.
Proof.
  intros Hle Hw. revert m Hle.
  induction Hw as [n s|n s u v Hw IH Hv]; intros m Hle.
  - constructor.
  - destruct m as [|m]; [lia|]. econstructor; [apply IH; lia | done].
Qed.

Lemma within_one_hop kg s v :
  within_hops kg 1 s v → v = s ∨ v ∈ neighbors kg s.
Proof.
  inversion 1 as [|n s' u v' Hu Hv]; subst; [by left|].
  inversion Hu; subst. by right.
Qed.

(** Every edge the walk yields below a node [k] hops from the source
    ends at most [k + d + 1] hops from it. *)
Lemma dfs_expand_hops kg s d :
  ∀ k parent children visited u v,
    within_hops kg k s parent →
    (∀ c, c ∈ children → c ∈ neighbors kg parent) →
    (u, v) ∈ (dfs_expand kg d parent children visited).1 →
    v ∈ neighbors kg u ∧ within_hops kg (k + d) s u ∧ within_hops kg (S (k + d)) s v.
Proof.
  induction d as [|d IHd]; intros k parent children; induction children as [|c cs IHc];
    intros visited u v Hp Hsub; rewrite ?dfs_expand_nil, ?dfs_expand_cons;
    try (simpl; by intros ?%elem_of_nil).
  - destruct (decide (c ∈ visited)).
    + apply IHc; [done|]. intros c' Hc'. apply Hsub. by right.
    + simpl. intros [Heq|Hin]%elem_of_cons.
      * injection Heq as -> ->. split; [apply Hsub; by left|].
        split; [eapply within_hops_mono; [|done]; lia|].
        econstructor; [eapply within_hops_mono; [|done]; lia | apply Hsub; by left].
      * eapply IHc; [done| |done]. intros c' Hc'. apply Hsub. by right.
  - destruct (decide (c ∈ visited)).
    + apply IHc; [done|]. intros c' Hc'. apply Hsub. by right.
    + simpl. intros [Heq|Hin]%elem_of_cons.
      * injection Heq as -> ->. split; [apply Hsub; by left|].
        split; [eapply within_hops_mono; [|done]; lia|].
        econstructor; [eapply within_hops_mono; [|done]; lia | apply Hsub; by left].
      * apply elem_of_app in Hin as [Hin|Hin].
        -- assert (within_hops kg (S k) s c) as Hc
             by (econstructor; [done | apply Hsub; by left]).
           destruct (IHd (S k) c (neighbors kg c) (c :: visited) u v Hc) as (? & ? & ?);
             [done|done|].
           repeat split; [done| |]; (eapply within_hops_mono; [|done]; lia).
        -- eapply IHc; [done| |done]. intros c' Hc'. apply Hsub. by right.
Qed.

Lemma dfs_edges_within kg source limit u v :
  1 ≤ limit →
  (u, v) ∈ dfs_edges kg source (Some limit) →
  v ∈ neighbors kg u ∧ within_hops kg limit source v.
Proof.
  intros Hl Hin. unfold dfs_edges in Hin. simpl in Hin.
  destruct (dfs_expand_hops kg source (limit - 1) 0 source (neighbors kg source)
              [source] u v) as (? & ? & Hv); [constructor|done|done|].
  split; [done|]. eapply within_hops_mono; [|done]. lia.
Qed.

Lemma dfs_edges_adjacent kg source depth_limit u v :
  (u, v) ∈ dfs_edges kg source depth_limit → v ∈ neighbors kg u.
Proof.
  intros Hin. unfold dfs_edges in Hin.
  by destruct (dfs_expand_hops kg source _ 0 source (neighbors kg source)
                 [source] u v (hops_here kg 0 source) (λ c Hc, Hc) Hin).
Qed.

(** ** Pairs already described *)

Lemma fresh_after_app before added1 added2 :
  fresh_after before added1 →
  fresh_after (before ++ added1) added2 →
  fresh_after before (added1 ++ added2).
Proof.
  revert before. induction added1 as [|p added1 IH]; intros before H1 H2; simpl in *.
  - by rewrite app_nil_r in H2.
  - destruct H1 as (? & ? & H1). repeat split; [done|done|].
    apply IH; [done|]. by rewrite <- (assoc_L (++)).
Qed.

Lemma rels_extended_refl st : rels_extended st st.
Proof. exists []. by rewrite app_nil_r. Qed.

Lemma rels_extended_trans st1 st2 st3 :
  rels_extended st1 st2 → rels_extended st2 st3 → rels_extended st1 st3.
Proof.
  intros (a1 & E1 & F1) (a2 & E2 & F2). exists (a1 ++ a2). split.
  - by rewrite E2, E1, (assoc_L (++)).
  - apply fresh_after_app; [done|]. by rewrite <- E1.
Qed.

Lemma described_once_snoc rels p :
  described_once rels → p ∉ rels → (p.2, p.1) ∉ rels → described_once (rels ++ [p]).
Proof.
  intros Honce Hp Hq i j a b Hij Hi.
  destruct (decide (j < length rels)) as [Hlt|Hge].
  - rewrite lookup_app_l in Hi by lia. rewrite lookup_app_l by done.
    by eapply Honce.
  - destruct (decide (j = length rels)) as [->|Hne].
    + rewrite lookup_app_l in Hi by lia. rewrite list_lookup_middle by done.
      assert ((a, b) ∈ rels) as Hab by (by eapply list_elem_of_lookup_2).
      split; intros [= ->]; simpl in *; done.
    + rewrite lookup_ge_None_2; [done|]. rewrite length_app. simpl. lia.
Qed.

Lemma described_once_fresh added :
  ∀ before, described_once before → fresh_after before added →
            described_once (before ++ added).
Proof.
  induction added as [|p added IH]; intros before Honce Hfresh.
  - by rewrite app_nil_r.
  - destruct Hfresh as (Hp & Hq & Hfresh).
    rewrite (cons_middle p), (assoc_L (++)).
    apply IH; [by apply described_once_snoc | done].
Qed.

(** ** Nodes already introduced *)

Lemma nodes_extended_refl st : nodes_extended st st.
Proof.
  exists []. rewrite app_nil_r. repeat split; [constructor|].
  by intros ent ?%elem_of_nil.
Qed.

Lemma nodes_extended_trans st1 st2 st3 :
  nodes_extended st1 st2 → nodes_extended st2 st3 → nodes_extended st1 st3.
Proof.
  intros (a1 & E1 & N1 & D1) (a2 & E2 & N2 & D2). exists (a1 ++ a2).
  rewrite E1 in E2, D2. split; [by rewrite E2, (assoc_L (++))|]. split.
  - apply NoDup_app. repeat split; [done| |done].
    intros ent H1 H2. apply (D2 ent H2). apply elem_of_app. by right.
  - intros ent [H|H]%elem_of_app; [by apply D1|].
    intros Hin. apply (D2 ent H). apply elem_of_app. by left.
Qed.

Lemma introduce_nodes_extended who ent e_type e_desc st :
  nodes_extended st (introduce who ent e_type e_desc st).
Proof.
  unfold nodes_extended. rewrite introduce_nodes.
  destruct (decide (ent ∈ completed_nodes st)) as [Hin|Hin].
  - exists []. repeat split; [constructor|]. by intros ? ?%elem_of_nil.
  - exists [ent]. repeat split; [apply NoDup_singleton|].
    by intros ? ->%list_elem_of_singleton.
Qed.

(** ** What the graph loop keeps *)

Ltac open_edge_step H :=
  match type of H with
  | _ _ ?st (?ent1, ?ent2) = Ok _ =>
    cbv beta delta [edge_step_generation edge_step_training] in H;
    cbv beta iota in H;
    destruct (decide ((ent1, ent2) ∈ completed_rels st ∨ (ent2, ent1) ∈ completed_rels st))
      as [Hseen|Hseen];
    [ injection H as <-
    | destruct (node_attr _ ent1 "type") as [e1_type|]; [|done];
      destruct (node_attr _ ent1 "description") as [e1_desc|]; [|done];
      destruct (node_attr _ ent2 "type") as [e2_type|]; [|done];
      destruct (node_attr _ ent2 "description") as [e2_desc|]; [|done];
      simpl in H;
      destruct (edge_attr _ ent1 ent2 "label") as [rel|]; [|done];
      simpl in H; injection H as <- ]
  end.

Lemma edge_step_generation_rels kg st e st' :
  edge_step_generation kg st e = Ok st' → rels_extended st st'.
Proof.
  destruct e as [ent1 ent2]. intros H. open_edge_step H.
  - apply rels_extended_refl.
  - exists [(ent1, ent2)]. simpl. rewrite !introduce_rels. tauto.
Qed.

Lemma edge_step_training_rels kg st e st' :
  edge_step_training kg st e = Ok st' → rels_extended st st'.
Proof.
  destruct e as [ent1 ent2]. intros H. open_edge_step H.
  - apply rels_extended_refl.
  - exists [(ent1, ent2)]. simpl. rewrite !introduce_rels. tauto.
Qed.

Lemma edge_step_generation_nodes kg st e st' :
  edge_step_generation kg st e = Ok st' → nodes_extended st st'.
Proof.
  destruct e as [ent1 ent2]. intros H. open_edge_step H.
  - apply nodes_extended_refl.
  - eapply nodes_extended_trans; [apply introduce_nodes_extended|].
    apply (introduce_nodes_extended ent2 ent2 e2_type e2_desc).
Qed.

Lemma edge_step_training_nodes kg st e st' :
  edge_step_training kg st e = Ok st' → nodes_extended st st'.
Proof.
  destruct e as [ent1 ent2]. intros H. open_edge_step H.
  - apply nodes_extended_refl.
  - eapply nodes_extended_trans; [apply introduce_nodes_extended|].
    apply (introduce_nodes_extended ent1 ent2 e2_type e2_desc).
Qed.

Lemma node_step_generation_rels kg depth0 plots st node st' :
  node_step_generation kg depth0 plots st node = Ok st' → rels_extended st st'.
Proof.
  unfold node_step_generation. destruct (str_in _ _).
  - apply (for_each_invariant rels_extended);
      [apply rels_extended_refl | apply rels_extended_trans
      | apply edge_step_generation_rels].
  - intros [= <-]. apply rels_extended_refl.
Qed.

Lemma node_step_training_rels kg plots st node st' :
  node_step_training kg plots st node = Ok st' → rels_extended st st'.
Proof.
  unfold node_step_training. destruct (str_in _ _).
  - apply (for_each_invariant rels_extended);
      [apply rels_extended_refl | apply rels_extended_trans
      | apply edge_step_training_rels].
  - intros [= <-]. apply rels_extended_refl.
Qed.

Lemma node_step_generation_nodes kg depth0 plots st node st' :
  node_step_generation kg depth0 plots st node = Ok st' → nodes_extended st st'.
Proof.
  unfold node_step_generation. destruct (str_in _ _).
  - apply (for_each_invariant nodes_extended);
      [apply nodes_extended_refl | apply nodes_extended_trans
      | apply edge_step_generation_nodes].
  - intros [= <-]. apply nodes_extended_refl.
Qed.

Lemma node_step_training_nodes kg plots st node st' :
  node_step_training kg plots st node = Ok st' → nodes_extended st st'.
Proof.
  unfold node_step_training. destruct (str_in _ _).
  - apply (for_each_invariant nodes_extended);
      [apply nodes_extended_refl | apply nodes_extended_trans
      | apply edge_step_training_nodes].
  - intros [= <-]. apply nodes_extended_refl.
Qed.

Lemma graph_loop_generation_inv kg depth0 plots st st' :
  for_each (node_step_generation kg depth0 plots) (kg_nodes kg) st = Ok st' →
  rels_extended st st' ∧ nodes_extended st st'.
Proof.
  intros Hrun. split; revert Hrun.
  - apply (for_each_invariant rels_extended);
      [apply rels_extended_refl | apply rels_extended_trans
      | apply node_step_generation_rels].
  - apply (for_each_invariant nodes_extended);
      [apply nodes_extended_refl | apply nodes_extended_trans
      | apply node_step_generation_nodes].
Qed.

Lemma graph_loop_training_inv kg plots st st' :
  for_each (node_step_training kg plots) (kg_nodes kg) st = Ok st' →
  rels_extended st st' ∧ nodes_extended st st'.
Proof.
  intros Hrun. split; revert Hrun.
  - apply (for_each_invariant rels_extended);
      [apply rels_extended_refl | apply rels_extended_trans
      | apply node_step_training_rels].
  - apply (for_each_invariant nodes_extended);
      [apply nodes_extended_refl | apply nodes_extended_trans
      | apply node_step_training_nodes].
Qed.

Lemma headed_extended st st' :
  rels_extended st st' ∧ nodes_extended st st' →
  rels_extended st (headed st') ∧ nodes_extended st (headed st').
Proof. intros H. exact H. Qed.

(** ** The [text_kg] block *)

Lemma text_kg_training_unfold G input plots :
  let kbs := ex_kbs input in
  let stA := after_kbs true "." init_cstate kbs (kb_relations <$> kbs) in
  text_kg_training G input plots =
    headed <$>
      (kg ← getitem (kg_map G !! ex_game input);
       for_each (node_step_training kg plots) (kg_nodes kg) stA).
Proof.
  simpl. unfold text_kg_training. rewrite kb_loop_training.
  by destruct (getitem _).
Qed.

Lemma text_kg_training_inv G input plots st' :
  text_kg_training G input plots = Ok st' →
  let kbs := ex_kbs input in
  let stA := after_kbs true "." init_cstate kbs (kb_relations <$> kbs) in
  rels_extended stA st' ∧ nodes_extended stA st'.
Proof.
  rewrite text_kg_training_unfold. simpl.
  intros (st0 & Hrun & ->)%fmap_Ok_inv.
  apply headed_extended.
  destruct (kg_map G !! ex_game input) as [kg|]; [|done]. simpl in Hrun.
  by apply graph_loop_training_inv in Hrun.
Qed.

Section text_kg_block.
Context `{!Random rng}.

Lemma text_kg_generation_unfold G input plots (g : rng) :
  let kbs := ex_kbs input in
  let stA := after_kbs (bool_decide (KG_DEPTH G > 0)%Z) ". " init_cstate kbs
               (emitted_relations (KG_DEPTH G) kbs g) in
  (text_kg_generation G input plots g).1 =
    headed <$>
      (if decide (KG_DEPTH G > 0)%Z then
         kg ← getitem (kg_map G !! ex_game input);
         for_each (node_step_generation kg (KG_DEPTH G) plots) (kg_nodes kg) stA
       else Ok stA).
Proof.
  simpl. unfold text_kg_generation.
  rewrite <- kb_loop_generation.
  by destruct (foldl _ _ _) as [st g'].
Qed.

Lemma text_kg_generation_without_graph G input plots (g : rng) :
  (KG_DEPTH G ≤ 0)%Z →
  text_kg_generation G input plots g =
    (Ok (headed (after_kbs false ". " init_cstate (ex_kbs input)
                   (kb_relations <$> ex_kbs input))), g).
Proof.
  intros Hle. unfold text_kg_generation.
  rewrite kb_loop_generation_all by done. by rewrite decide_False by lia.
Qed.

Lemma text_kg_generation_inv G input plots (g : rng) st' :
  (text_kg_generation G input plots g).1 = Ok st' →
  let kbs := ex_kbs input in
  let stA := after_kbs (bool_decide (KG_DEPTH G > 0)%Z) ". " init_cstate kbs
               (emitted_relations (KG_DEPTH G) kbs g) in
  rels_extended stA st' ∧ nodes_extended stA st'.
Proof.
  rewrite text_kg_generation_unfold. simpl.
  intros (st0 & Hrun & ->)%fmap_Ok_inv.
  apply headed_extended.
  destruct (decide (KG_DEPTH G > 0)%Z).
  - destruct (kg_map G !! ex_game input) as [kg|]; [|done]. simpl in Hrun.
    by apply graph_loop_generation_inv in Hrun.
  - injection Hrun as <-. split; [apply rels_extended_refl | apply nodes_extended_refl].
Qed.

Lemma create_generation_updates_row G input (g : rng) input' :
  (create_generation_prompt_formats G input g).1 = Ok input' →
  ∃ prompt completion,
    input' = {| ex_id := ex_id input; ex_game := ex_game input;
                ex_plots := ex_plots input; ex_kbs := ex_kbs input;
                ex_quest := ex_quest input;
                ex_text := Some prompt; ex_output := Some completion |}.
Proof.
  unfold create_generation_prompt_formats.
  destruct (decide (TRAIN_TYPE G = "text_kg")) as [Hkg|Hkg].
  - destruct (text_kg_generation G input (plots_of input) g) as [[st|e] g']; [|done].
    simpl. destruct (render_quest (ex_quest input)); [|done].
    simpl. intros [= <-]. eauto.
  - simpl. destruct (render_quest (ex_quest input)); [|done].
    simpl. intros [= <-]. eauto.
Qed.

End text_kg_block.

Lemma create_training_updates_row G input input' :
  create_training_prompt_formats G input = Ok input' →
  ∃ prompt,
    input' = {| ex_id := ex_id input; ex_game := ex_game input;
                ex_plots := ex_plots input; ex_kbs := ex_kbs input;
                ex_quest := ex_quest input;
                ex_text := Some prompt; ex_output := ex_output input |}.
Proof.
  unfold create_training_prompt_formats.
  destruct (decide (TRAIN_TYPE G = "text_kg")) as [Hkg|Hkg].
  - destruct (text_kg_training G input (plots_of input)) as [st|e]; [|done].
    simpl. destruct (render_quest (ex_quest input)); [|done].
    simpl. intros [= <-]. eauto.
  - simpl. destruct (render_quest (ex_quest input)); [|done].
    simpl. intros [= <-]. eauto.
Qed.

Lemma text_kg_generation_draws `{!Random rng1, !Random rng2} G input plots
    (g1 : rng1) (g2 : rng2) :
  draws (KG_DEPTH G) (ex_kbs input) g1 = draws (KG_DEPTH G) (ex_kbs input) g2 →
  (text_kg_generation G input plots g1).1 = (text_kg_generation G input plots g2).1.
Proof.
  intros Hdraws. rewrite !text_kg_generation_unfold. simpl.
  unfold emitted_relations. by rewrite Hdraws.
Qed.

(** ** Graphs on which the graph loop returns *)

Lemma edge_step_generation_returns kg st ent1 ent2 :
  kg_complete kg → ent2 ∈ neighbors kg ent1 →
  ∃ st', edge_step_generation kg st (ent1, ent2) = Ok st'.
Proof.
  intros Hkg Hadj.
  destruct (decide (described st ent1 ent2)) as [Hseen|Hnew].
  - exists st. by apply edge_step_generation_skip.
  - destruct (Hkg ent1 ent2 Hadj) as (t1 & d1 & t2 & d2 & rel & Hdata).
    eexists. by eapply edge_step_generation_run.
Qed.

Lemma edge_step_training_returns kg st ent1 ent2 :
  kg_complete kg → ent2 ∈ neighbors kg ent1 →
  ∃ st', edge_step_training kg st (ent1, ent2) = Ok st'.
Proof.
  intros Hkg Hadj.
  destruct (decide (described st ent1 ent2)) as [Hseen|Hnew].
  - exists st. unfold edge_step_training. by rewrite decide_True.
  - destruct (Hkg ent1 ent2 Hadj) as (t1 & d1 & t2 & d2 & rel & Hdata).
    eexists. by eapply edge_step_training_run.
Qed.

Lemma node_step_generation_returns kg depth0 plots st node :
  kg_complete kg → ∃ st', node_step_generation kg depth0 plots st node = Ok st'.
Proof.
  intros Hkg. unfold node_step_generation. destruct (str_in _ _); [|by exists st].
  destruct (for_each_ok (λ _, True) (edge_step_generation kg)
              (dfs_edges kg node.1 (Some (Z.to_nat depth0)))) with (s := st)
    as (st' & Hrun & _); [|done|by exists st'].
  intros s [u v] _ Hin. apply dfs_edges_adjacent in Hin.
  destruct (edge_step_generation_returns kg s u v Hkg Hin) as [s' Hs']. by exists s'.
Qed.

Lemma node_step_training_returns kg plots st node :
  kg_complete kg → ∃ st', node_step_training kg plots st node = Ok st'.
Proof.
  intros Hkg. unfold node_step_training. destruct (str_in _ _); [|by exists st].
  destruct (for_each_ok (λ _, True) (edge_step_training kg)
              (dfs_edges kg node.1 None)) with (s := st)
    as (st' & Hrun & _); [|done|by exists st'].
  intros s [u v] _ Hin. apply dfs_edges_adjacent in Hin.
  destruct (edge_step_training_returns kg s u v Hkg Hin) as [s' Hs']. by exists s'.
Qed.

(** On a registered game whose graph is complete the [text_kg] blocks
    return a background. *)
Lemma text_kg_generation_returns `{!Random rng} G input plots (g : rng) kg :
  kg_map G !! ex_game input = Some kg → kg_complete kg →
  ∃ st', (text_kg_generation G input plots g).1 = Ok st'.
Proof.
  intros Hreg Hkg. rewrite text_kg_generation_unfold. simpl.
  destruct (decide (KG_DEPTH G > 0)%Z); [|by eexists].
  rewrite Hreg. simpl.
  destruct (for_each_ok (λ _, True) (node_step_generation kg (KG_DEPTH G) plots)
              (kg_nodes kg)) with
    (s := after_kbs (bool_decide (KG_DEPTH G > 0)%Z) ". " init_cstate (ex_kbs input)
            (emitted_relations (KG_DEPTH G) (ex_kbs input) g))
    as (st' & Hrun & _); [|done|].
  - intros s node _ _.
    destruct (node_step_generation_returns kg (KG_DEPTH G) plots s node Hkg) as [s' Hs'].
    by exists s'.
  - rewrite Hrun. by eexists.
Qed.

Lemma text_kg_training_returns G input plots kg :
  kg_map G !! ex_game input = Some kg → kg_complete kg →
  ∃ st', text_kg_training G input plots = Ok st'.
Proof.
  intros Hreg Hkg. rewrite text_kg_training_unfold. simpl.
  rewrite Hreg. simpl.
  destruct (for_each_ok (λ _, True) (node_step_training kg plots) (kg_nodes kg)) with
    (s := after_kbs true "." init_cstate (ex_kbs input) (kb_relations <$> ex_kbs input))
    as (st' & Hrun & _); [|done|].
  - intros s node _ _.
    destruct (node_step_training_returns kg plots s node Hkg) as [s' Hs'].
    by exists s'.
  - rewrite Hrun. by eexists.
Qed.

(** The sample graph is complete: the inference notebook returns a
    background for every row of its game, at every depth. *)

Lemma kg_isles_complete : kg_complete kg_isles.
Proof.
  intros u v Hin. unfold neighbors in Hin. simpl in Hin.
  repeat case_decide; subst; simpl in Hin;
    repeat match goal with
    | H : _ ∈ [] |- _ => by apply elem_of_nil in H
    | H : _ ∈ [_] |- _ => apply list_elem_of_singleton in H; subst
    end;
    do 5 eexists; repeat split; vm_compute; reflexivity.
Qed.

Lemma isles_background_returns (depth0 : Z) (kbs : list KB) (g : list nat) :
  ∃ st', (text_kg_generation (notebook "text_kg" depth0 registry) (row kbs [])
            (plots_of (row kbs [])) g).1 = Ok st'.
Proof.
  apply (text_kg_generation_returns _ _ _ _ kg_isles); [reflexivity|].
  apply kg_isles_complete.
Qed.

(** ** Quest rendering *)

Lemma tasks_value (l : list string) :
  2 ≤ length l →
  (caps ← np_char_capitalize (removelast l);
   Ok (nl +:+ " " +:+ join (nl +:+ " ") caps)) =
  Ok (cat ((λ t, nl +:+ " " +:+ capitalize t) <$> removelast l)).
Proof.
  intros Hlen. destruct (removelast l) as [|x rest] eqn:Hl.
  { destruct l as [|a [|b l]]; simpl in *; [lia|lia|done]. }
  change (Ok ((nl +:+ " ") +:+ join (nl +:+ " ") (capitalize x :: (capitalize <$> rest))) =
          Ok (cat ((λ t, (nl +:+ " ") +:+ capitalize t) <$> x :: rest))).
  rewrite join_indented, <- fmap_cons, <- list_fmap_compose. done.
Qed.

Lemma quest_field_renderable quest_str kv :
  renderable kv → quest_field quest_str kv = Ok (quest_str +:+ field_text kv).
Proof.
  destruct kv as [k v]. unfold renderable, quest_field, field_text.
  cbn [fst snd].
  intros [->|[[-> (l & -> & Hlen)]|[Hk (s & ->)]]].
  - rewrite !decide_True by done. by rewrite append_empty_r.
  - rewrite !(decide_False (P := "tasks" = "description")) by done.
    rewrite decide_True by done. by rewrite tasks_value by done.
  - destruct (decide (k = "description")) as [->|Hd].
    + by rewrite append_empty_r.
    + by rewrite decide_False by done.
Qed.

Lemma render_quest_from quest :
  ∀ quest_str, Forall renderable quest →
    for_each quest_field quest quest_str = Ok (quest_str +:+ cat (field_text <$> quest)).
Proof.
  induction quest as [|kv quest IH]; intros quest_str Hall.
  - simpl. by rewrite append_empty_r.
  - apply Forall_cons in Hall as [Hkv Hall]. simpl.
    rewrite quest_field_renderable by done. simpl.
    rewrite IH by done. by rewrite append_assoc.
Qed.

(** A quest whose [tasks] keep an element after the last one is dropped
    renders field by field, in order. *)
Lemma render_quest_renderable quest :
  Forall renderable quest → render_quest quest = Ok (cat (field_text <$> quest)).
Proof. intros Hall. unfold render_quest. by rewrite render_quest_from. Qed.

Lemma quest_field_single_task quest_str task :
  quest_field quest_str ("tasks", QList [task]) = Raise TypeError.
Proof. reflexivity. Qed.

Lemma render_quest_single_task quest task :
  ("tasks", QList [task]) ∈ quest →
  ∀ quest_str, ∃ e, for_each quest_field quest quest_str = Raise e.
Proof.
  induction quest as [|kv quest IH]; intros Hin quest_str.
  - by apply elem_of_nil in Hin.
  - simpl. apply elem_of_cons in Hin as [<-|Hin].
    + rewrite quest_field_single_task. by exists TypeError.
    + destruct (quest_field quest_str kv) as [quest_str'|e]; simpl; [by apply IH | by exists e].
Qed.

(** ** Prompt assembly *)

Lemma truthy_cons_keep (part : string) (parts : list string) :
  part ≠ "" → truthy (part :: parts) = part :: truthy parts.
Proof. intros Hne. unfold truthy. by rewrite filter_cons_True. Qed.

Lemma truthy_cons_drop (parts : list string) : truthy ("" :: parts) = truthy parts.
Proof. unfold truthy. by rewrite filter_cons_False by (intros H; by apply H). Qed.

Lemma plots_of_nonempty input : plots_of input ≠ "".
Proof. discriminate. Qed.

Lemma quest_section_nonempty quest_str : QUEST +:+ nl +:+ quest_str ≠ "".
Proof. discriminate. Qed.

Lemma headed_nonempty st : background (headed st) ≠ "".
Proof. discriminate. Qed.

(** The prompt parts of the inference notebook when no background was
    composed. *)
Lemma parts_without_background (train_type : string) (plots : string) :
  plots ≠ "" →
  (if decide (train_type ∈ ["no_kg"; "tree_kg"])
   then truthy [plots; INTRO_BLURB]
   else truthy [""; plots; INTRO_BLURB]) = [plots; INTRO_BLURB].
Proof.
  intros Hp. destruct (decide (train_type ∈ ["no_kg"; "tree_kg"])).
  - rewrite truthy_cons_keep by done. by rewrite truthy_cons_keep by discriminate.
  - rewrite truthy_cons_drop, truthy_cons_keep by done.
    by rewrite truthy_cons_keep by discriminate.
Qed.

Lemma create_generation_plain `{!Random rng} G input (g : rng) :
  TRAIN_TYPE G ≠ "text_kg" →
  create_generation_prompt_formats G input g =
    ((λ quest_str,
        with_prompt input (plots_of input +:+ blank +:+ INTRO_BLURB)
          (Some (completion_of quest_str))) <$> render_quest (ex_quest input), g).
Proof.
  intros Hmode. unfold create_generation_prompt_formats.
  rewrite decide_False by done. f_equal.
  change (Ok "" ≫= ?f) with (f "").
  destruct (render_quest (ex_quest input)) as [quest_str|e]; [|done].
  cbn [mbind result_bind fmap result_fmap].
  rewrite parts_without_background by apply plots_of_nonempty.
  rewrite truthy_cons_keep by apply quest_section_nonempty.
  by rewrite truthy_cons_keep by discriminate.
Qed.

Lemma create_training_plain G input :
  TRAIN_TYPE G ≠ "text_kg" →
  create_training_prompt_formats G input =
    (λ quest_str,
       with_prompt input
         (plots_of input +:+ blank +:+ INTRO_BLURB +:+ blank +:+
          (QUEST +:+ nl +:+ quest_str) +:+ blank +:+ END_KEY)
         (ex_output input)) <$> render_quest (ex_quest input).
Proof.
  intros Hmode. unfold create_training_prompt_formats.
  rewrite decide_False by done.
  change (Ok "" ≫= ?f) with (f "").
  destruct (render_quest (ex_quest input)) as [quest_str|e]; [|done].
  cbn [mbind result_bind fmap result_fmap].
  assert ((if decide (TRAIN_TYPE G ∈ ["no_kg"; "tree_kg"])
           then truthy [plots_of input; INTRO_BLURB; QUEST +:+ nl +:+ quest_str; END_KEY]
           else truthy [""; plots_of input; INTRO_BLURB; QUEST +:+ nl +:+ quest_str; END_KEY])
          = [plots_of input; INTRO_BLURB; QUEST +:+ nl +:+ quest_str; END_KEY]) as ->.
  { destruct (decide (TRAIN_TYPE G ∈ ["no_kg"; "tree_kg"]));
      rewrite ?truthy_cons_drop;
      rewrite (truthy_cons_keep (plots_of input)) by apply plots_of_nonempty;
      rewrite (truthy_cons_keep INTRO_BLURB) by discriminate;
      rewrite (truthy_cons_keep (QUEST +:+ nl +:+ quest_str)) by apply quest_section_nonempty;
      by rewrite (truthy_cons_keep END_KEY) by discriminate. }
  done.
Qed.

Lemma text_kg_not_plain (train_type : string) :
  train_type = "text_kg" → train_type ∉ ["no_kg"; "tree_kg"].
Proof.
  intros -> [H|H]%elem_of_cons; [done|].
  apply elem_of_cons in H as [H|H]; [done|]. by apply elem_of_nil in H.
Qed.

Lemma create_generation_text_kg `{!Random rng} G input (g : rng) :
  TRAIN_TYPE G = "text_kg" →
  (create_generation_prompt_formats G input g).1 =
    st ← (text_kg_generation G input (plots_of input) g).1;
    quest_str ← render_quest (ex_quest input);
    Ok (with_prompt input
          (background st +:+ blank +:+ plots_of input +:+ blank +:+ INTRO_BLURB)
          (Some (completion_of quest_str))).
Proof.
  intros Hmode. unfold create_generation_prompt_formats.
  rewrite decide_True by done. unfold text_kg_generation.
  destruct (foldl _ _ _) as [stA gA].
  destruct (if decide (KG_DEPTH G > 0)%Z then _ else _) as [st0|e]; [|done].
  cbn [fst fmap result_fmap mbind result_bind].
  destruct (render_quest (ex_quest input)) as [quest_str|e]; [|done].
  cbn [mbind result_bind].
  rewrite decide_False by (by apply text_kg_not_plain).
  rewrite (truthy_cons_keep (background (headed st0))) by apply headed_nonempty.
  rewrite (truthy_cons_keep (plots_of input)) by apply plots_of_nonempty.
  rewrite (truthy_cons_keep INTRO_BLURB) by discriminate.
  rewrite (truthy_cons_keep (QUEST +:+ nl +:+ quest_str)) by apply quest_section_nonempty.
  by rewrite (truthy_cons_keep END_KEY) by discriminate.
Qed.

Lemma create_training_text_kg G input :
  TRAIN_TYPE G = "text_kg" →
  create_training_prompt_formats G input =
    st ← text_kg_training G input (plots_of input);
    quest_str ← render_quest (ex_quest input);
    Ok (with_prompt input
          (background st +:+ blank +:+ plots_of input +:+ blank +:+ INTRO_BLURB +:+ blank +:+
           (QUEST +:+ nl +:+ quest_str) +:+ blank +:+ END_KEY)
          (ex_output input)).
Proof.
  intros Hmode. unfold create_training_prompt_formats.
  rewrite decide_True by done. unfold text_kg_training.
  destruct (getitem _) as [kg|e]; [|done]. cbn [mbind result_bind].
  destruct (for_each _ _ _) as [st0|e]; [|done].
  cbn [fst fmap result_fmap mbind result_bind].
  destruct (render_quest (ex_quest input)) as [quest_str|e]; [|done].
  cbn [mbind result_bind].
  rewrite decide_False by (by apply text_kg_not_plain).
  rewrite (truthy_cons_keep (background (headed st0))) by apply headed_nonempty.
  rewrite (truthy_cons_keep (plots_of input)) by apply plots_of_nonempty.
  rewrite (truthy_cons_keep INTRO_BLURB) by discriminate.
  rewrite (truthy_cons_keep (QUEST +:+ nl +:+ quest_str)) by apply quest_section_nonempty.
  by rewrite (truthy_cons_keep END_KEY) by discriminate.
Qed.

(** ** The blocks of the graph loop *)

Lemma for_each_invariant_in {T A} (P : T → T → Prop) (body : T → A → result T)
    (xs : list A) :
  (∀ s, P s s) →
  (∀ s1 s2 s3, P s1 s2 → P s2 s3 → P s1 s3) →
  (∀ s x s', x ∈ xs → body s x = Ok s' → P s s') →
  ∀ s s', for_each body xs s = Ok s' → P s s'.
Proof.
  intros Hrefl Htrans.
  induction xs as [|x xs IH]; intros Hbody s s' Hrun; simpl in Hrun.
  - injection Hrun as ->. apply Hrefl.
  - destruct (body s x) as [s1|] eqn:Hx; [|done].
    eapply Htrans; [eapply Hbody; [by left | done]|].
    eapply IH; [|done]. intros s2 y s3 Hy. apply Hbody. by right.
Qed.

(** What a loop has established for each of its elements, when every
    step establishes it for its own element and keeps it for the
    others. *)
Lemma for_each_established {T A} (Q : A → T → Prop) (body : T → A → result T) :
  (∀ s x s', body s x = Ok s' → Q x s') →
  (∀ s y s' x, body s y = Ok s' → Q x s → Q x s') →
  ∀ xs s s', for_each body xs s = Ok s' → ∀ x, x ∈ xs → Q x s'.
Proof.
  intros Hown Hkeep xs.
  induction xs as [|y xs IH]; intros s s' Hrun x Hin; [by apply elem_of_nil in Hin|].
  simpl in Hrun. destruct (body s y) as [s1|] eqn:Hy; [|done]. simpl in Hrun.
  apply elem_of_cons in Hin as [->|Hin]; [|by eapply IH].
  assert (Q y s1) as Hq by (by eapply Hown).
  clear Hy IH. revert s1 Hrun Hq.
  induction xs as [|z xs IH]; intros s1 Hrun Hq; simpl in Hrun.
  - by injection Hrun as <-.
  - destruct (body s1 z) as [s2|] eqn:Hz; [|done]. simpl in Hrun.
    eapply IH; [done|]. by eapply Hkeep.
Qed.

Lemma introduce_background who ent e_type e_desc st :
  background (introduce who ent e_type e_desc st) =
    background st +:+
    (if decide (ent ∈ completed_nodes st) then ""
     else introduction_as who ent e_type e_desc).
Proof.
  destruct (decide (ent ∈ completed_nodes st)) as [Hin|Hin].
  - rewrite introduce_old by done. by rewrite append_empty_r.
  - by rewrite introduce_new by done.
Qed.

Lemma edge_step_generation_cases kg st ent1 ent2 st' :
  edge_step_generation kg st (ent1, ent2) = Ok st' →
  (described st ent1 ent2 ∧ st' = st) ∨
  (¬ described st ent1 ent2 ∧
   ∃ e1_type e1_desc e2_type e2_desc rel,
     edge_data_ok kg ent1 ent2 e1_type e1_desc e2_type e2_desc rel ∧
     let st1 := introduce ent2 ent2 e2_type e2_desc (introduce ent1 ent1 e1_type e1_desc st) in
     st' = {| background := background st1 +:+ relation_sentence rel ent1 e1_type ent2 +:+ nl;
              completed_rels := completed_rels st ++ [(ent1, ent2)];
              completed_nodes := completed_nodes st1 |}).
Proof.
  intros Hrun. destruct (decide (described st ent1 ent2)) as [Hseen|Hnew].
  - left. rewrite edge_step_generation_skip in Hrun by done. by injection Hrun as <-.
  - right. split; [done|].
    assert (∃ e1_type e1_desc e2_type e2_desc rel,
              edge_data_ok kg ent1 ent2 e1_type e1_desc e2_type e2_desc rel)
      as (e1_type & e1_desc & e2_type & e2_desc & rel & Hdata).
    { unfold edge_step_generation in Hrun. rewrite decide_False in Hrun by done.
      unfold edge_data_ok.
      destruct (node_attr kg ent1 "type") as [e1_type|]; [|done].
      destruct (node_attr kg ent1 "description") as [e1_desc|]; [|done].
      destruct (node_attr kg ent2 "type") as [e2_type|]; [|done].
      destruct (node_attr kg ent2 "description") as [e2_desc|]; [|done].
      simpl in Hrun.
      destruct (edge_attr kg ent1 ent2 "label") as [rel|]; [|done].
      by exists e1_type, e1_desc, e2_type, e2_desc, rel. }
    exists e1_type, e1_desc, e2_type, e2_desc, rel. split; [done|].
    rewrite (edge_step_generation_run _ _ _ _ _ _ _ _ _ Hnew Hdata) in Hrun.
    by injection Hrun as <-.
Qed.

Lemma edge_step_training_cases kg st ent1 ent2 st' :
  edge_step_training kg st (ent1, ent2) = Ok st' →
  (described st ent1 ent2 ∧ st' = st) ∨
  (¬ described st ent1 ent2 ∧
   ∃ e1_type e1_desc e2_type e2_desc rel,
     edge_data_ok kg ent1 ent2 e1_type e1_desc e2_type e2_desc rel ∧
     let st1 := introduce ent1 ent2 e2_type e2_desc (introduce ent1 ent1 e1_type e1_desc st) in
     st' = {| background := background st1 +:+ relation_sentence rel ent1 e1_type ent2 +:+ nl;
              completed_rels := completed_rels st ++ [(ent1, ent2)];
              completed_nodes := completed_nodes st1 |}).
Proof.
  intros Hrun. destruct (decide (described st ent1 ent2)) as [Hseen|Hnew].
  - left. split; [done|]. unfold edge_step_training in Hrun.
    rewrite decide_True in Hrun by done. by injection Hrun as <-.
  - right. split; [done|].
    assert (∃ e1_type e1_desc e2_type e2_desc rel,
              edge_data_ok kg ent1 ent2 e1_type e1_desc e2_type e2_desc rel)
      as (e1_type & e1_desc & e2_type & e2_desc & rel & Hdata).
    { unfold edge_step_training in Hrun. rewrite decide_False in Hrun by done.
      unfold edge_data_ok.
      destruct (node_attr kg ent1 "type") as [e1_type|]; [|done].
      destruct (node_attr kg ent1 "description") as [e1_desc|]; [|done].
      destruct (node_attr kg ent2 "type") as [e2_type|]; [|done].
      destruct (node_attr kg ent2 "description") as [e2_desc|]; [|done].
      simpl in Hrun.
      destruct (edge_attr kg ent1 ent2 "label") as [rel|]; [|done].
      by exists e1_type, e1_desc, e2_type, e2_desc, rel. }
    exists e1_type, e1_desc, e2_type, e2_desc, rel. split; [done|].
    rewrite (edge_step_training_run _ _ _ _ _ _ _ _ _ Hnew Hdata) in Hrun.
    by injection Hrun as <-.
Qed.

Lemma graph_extended_refl kg P st : graph_extended kg P st st.
Proof.
  exists []. simpl. rewrite append_empty_r, app_nil_r. repeat split. constructor.
Qed.

Lemma graph_extended_trans kg P st1 st2 st3 :
  graph_extended kg P st1 st2 → graph_extended kg P st2 st3 → graph_extended kg P st1 st3.
Proof.
  intros (b1 & T1 & R1 & F1) (b2 & T2 & R2 & F2). exists (b1 ++ b2).
  rewrite T2, T1, R2, R1, !fmap_app, cat_app, append_assoc, (assoc_L (++)).
  repeat split. by apply Forall_app.
Qed.

Lemma graph_extended_block kg (P : string * string → Prop) st st' ent1 ent2
    e1_type e1_desc e2_type e2_desc rel who :
  P (ent1, ent2) →
  edge_data_ok kg ent1 ent2 e1_type e1_desc e2_type e2_desc rel →
  who = ent1 ∨ who = ent2 →
  let st1 := introduce who ent2 e2_type e2_desc (introduce ent1 ent1 e1_type e1_desc st) in
  st' = {| background := background st1 +:+ relation_sentence rel ent1 e1_type ent2 +:+ nl;
           completed_rels := completed_rels st ++ [(ent1, ent2)];
           completed_nodes := completed_nodes st1 |} →
  graph_extended kg P st st'.
Proof.
  intros HP Hdata Hwho st1 ->.
  set (intro1 := if decide (ent1 ∈ completed_nodes st) then ""
                 else introduction_as ent1 ent1 e1_type e1_desc).
  set (intro2 := if decide (ent2 ∈ completed_nodes (introduce ent1 ent1 e1_type e1_desc st))
                 then "" else introduction_as who ent2 e2_type e2_desc).
  exists [((ent1, ent2),
           intro1 +:+ intro2 +:+ relation_sentence rel ent1 e1_type ent2 +:+ nl)].
  cbn [fmap list_fmap fst snd background completed_rels].
  split; [|split].
  - unfold st1. rewrite !introduce_background. fold intro1 intro2.
    rewrite cat_cons. unfold cat. cbn [foldr].
    by rewrite append_empty_r, !append_assoc.
  - done.
  - constructor; [|constructor]. split; [done|].
    exists e1_type, e1_desc, e2_type, e2_desc, rel, intro1, intro2, who.
    cbn [fst snd]. split; [done|]. split.
    { unfold intro1. destruct (decide (ent1 ∈ completed_nodes st)); [by left | by right]. }
    split; [done|]. split; [|done].
    unfold intro2.
    destruct (decide (ent2 ∈ completed_nodes (introduce ent1 ent1 e1_type e1_desc st)));
      [by left | by right].
Qed.

Lemma edge_step_generation_blocks kg (P : string * string → Prop) st e st' :
  P e → edge_step_generation kg st e = Ok st' → graph_extended kg P st st'.
Proof.
  destruct e as [ent1 ent2]. intros HP Hrun.
  apply edge_step_generation_cases in Hrun
    as [[_ ->]|(_ & e1_type & e1_desc & e2_type & e2_desc & rel & Hdata & Hst)].
  - apply graph_extended_refl.
  - eapply (graph_extended_block kg P st st' ent1 ent2 _ _ _ _ _ ent2); eauto.
Qed.

Lemma edge_step_training_blocks kg (P : string * string → Prop) st e st' :
  P e → edge_step_training kg st e = Ok st' → graph_extended kg P st st'.
Proof.
  destruct e as [ent1 ent2]. intros HP Hrun.
  apply edge_step_training_cases in Hrun
    as [[_ ->]|(_ & e1_type & e1_desc & e2_type & e2_desc & rel & Hdata & Hst)].
  - apply graph_extended_refl.
  - eapply (graph_extended_block kg P st st' ent1 ent2 _ _ _ _ _ ent1); eauto.
Qed.

Lemma graph_loop_generation_blocks kg depth0 plots st st' :
  for_each (node_step_generation kg depth0 plots) (kg_nodes kg) st = Ok st' →
  graph_extended kg (walked kg (Some (Z.to_nat depth0)) plots) st st'.
Proof.
  apply for_each_invariant_in;
    [apply graph_extended_refl | apply graph_extended_trans |].
  intros s [source data] s' Hnode. unfold node_step_generation. cbn [fst].
  destruct (str_in (lower source) (lower plots)) eqn:Hmatch.
  - apply for_each_invariant_in;
      [apply graph_extended_refl | apply graph_extended_trans |].
    intros s1 e s2 He. apply edge_step_generation_blocks.
    exists source. split; [|done]. split; [by exists data | done].
  - intros [= <-]. apply graph_extended_refl.
Qed.

Lemma graph_loop_training_blocks kg plots st st' :
  for_each (node_step_training kg plots) (kg_nodes kg) st = Ok st' →
  graph_extended kg (walked kg None plots) st st'.
Proof.
  apply for_each_invariant_in;
    [apply graph_extended_refl | apply graph_extended_trans |].
  intros s [source data] s' Hnode. unfold node_step_training. cbn [fst].
  destruct (str_in (lower source) (lower plots)) eqn:Hmatch.
  - apply for_each_invariant_in;
      [apply graph_extended_refl | apply graph_extended_trans |].
    intros s1 e s2 He. apply edge_step_training_blocks.
    exists source. split; [|done]. split; [by exists data | done].
  - intros [= <-]. apply graph_extended_refl.
Qed.

(** ** Every edge of a walk ends up described *)

Lemma described_extended st st' ent1 ent2 :
  rels_extended st st' → described st ent1 ent2 → described st' ent1 ent2.
Proof.
  intros (added & E & _) [H|H]; [left|right]; rewrite E; apply elem_of_app; by left.
Qed.

Lemma edge_step_generation_described kg st ent1 ent2 st' :
  edge_step_generation kg st (ent1, ent2) = Ok st' → described st' ent1 ent2.
Proof.
  intros [[H ->]|(_ & ? & ? & ? & ? & ? & _ & ->)]%edge_step_generation_cases; [done|].
  left. cbn. apply elem_of_app. right. apply list_elem_of_here.
Qed.

Lemma edge_step_training_described kg st ent1 ent2 st' :
  edge_step_training kg st (ent1, ent2) = Ok st' → described st' ent1 ent2.
Proof.
  intros [[H ->]|(_ & ? & ? & ? & ? & ? & _ & ->)]%edge_step_training_cases; [done|].
  left. cbn. apply elem_of_app. right. apply list_elem_of_here.
Qed.

Lemma edge_loop_generation_described kg edges st st' :
  for_each (edge_step_generation kg) edges st = Ok st' →
  ∀ e, e ∈ edges → described st' e.1 e.2.
Proof.
  apply (for_each_established (λ (e : string * string) s, described s e.1 e.2)).
  - intros s [u v] s'. apply edge_step_generation_described.
  - intros s y s' x Hy. apply described_extended. by eapply edge_step_generation_rels.
Qed.

Lemma edge_loop_training_described kg edges st st' :
  for_each (edge_step_training kg) edges st = Ok st' →
  ∀ e, e ∈ edges → described st' e.1 e.2.
Proof.
  apply (for_each_established (λ (e : string * string) s, described s e.1 e.2)).
  - intros s [u v] s'. apply edge_step_training_described.
  - intros s y s' x Hy. apply described_extended. by eapply edge_step_training_rels.
Qed.

Lemma graph_loop_generation_walked kg depth0 plots st st' :
  for_each (node_step_generation kg depth0 plots) (kg_nodes kg) st = Ok st' →
  ∀ e, walked kg (Some (Z.to_nat depth0)) plots e → described st' e.1 e.2.
Proof.
  intros Hrun e (source & [[data Hnode] Hmatch] & Hin).
  revert e Hin. change source with (source, data).1 in Hmatch |- *.
  revert Hmatch. generalize (source, data) Hnode. revert Hrun.
  apply (for_each_established
    (λ (node : string * attrs) s,
       str_in (lower node.1) (lower plots) = true →
       ∀ e, e ∈ dfs_edges kg node.1 (Some (Z.to_nat depth0)) → described s e.1 e.2)).
  - intros s node s'. unfold node_step_generation.
    intros Hstep Hm e He. rewrite Hm in Hstep.
    by eapply edge_loop_generation_described.
  - intros s y s' node Hstep Hq Hm e He.
    eapply described_extended; [by eapply node_step_generation_rels | by apply Hq].
Qed.

Lemma graph_loop_training_walked kg plots st st' :
  for_each (node_step_training kg plots) (kg_nodes kg) st = Ok st' →
  ∀ e, walked kg None plots e → described st' e.1 e.2.
Proof.
  intros Hrun e (source & [[data Hnode] Hmatch] & Hin).
  revert e Hin. change source with (source, data).1 in Hmatch |- *.
  revert Hmatch. generalize (source, data) Hnode. revert Hrun.
  apply (for_each_established
    (λ (node : string * attrs) s,
       str_in (lower node.1) (lower plots) = true →
       ∀ e, e ∈ dfs_edges kg node.1 None → described s e.1 e.2)).
  - intros s node s'. unfold node_step_training.
    intros Hstep Hm e He. rewrite Hm in Hstep.
    by eapply edge_loop_training_described.
  - intros s y s' node Hstep Hq Hm e He.
    eapply described_extended; [by eapply node_step_training_rels | by apply Hq].
Qed.

(** ** The graph loop after the kb loop *)

Lemma graph_extended_weaken kg (P Q : string * string → Prop) st st' :
  (∀ e, P e → Q e) → graph_extended kg P st st' → graph_extended kg Q st st'.
Proof.
  intros HPQ (blocks & Hbg & Hrels & Hall). exists blocks.
  split; [done|]. split; [done|].
  eapply Forall_impl; [done|]. intros b [HP Hb]. split; [by apply HPQ | done].
Qed.

Lemma graph_extended_headed kg P st st' :
  graph_extended kg P st st' → graph_extended kg P (headed st) (headed st').
Proof.
  intros (blocks & Hbg & Hrels & Hall). exists blocks.
  cbn [headed background completed_rels]. rewrite Hbg.
  split; [by rewrite !append_assoc|]. done.
Qed.

Lemma graph_extended_rels kg P st st' :
  graph_extended kg P st st' → rels_extended st st' →
  ∃ blocks : list ((string * string) * string),
    background st' = background st +:+ cat blocks.*2 ∧
    completed_rels st' = completed_rels st ++ blocks.*1 ∧
    Forall (λ b, P b.1 ∧ edge_block kg b) blocks ∧
    fresh_after (completed_rels st) blocks.*1.
Proof.
  intros (blocks & Hbg & Hrels & Hall) (added & Hadded & Hfresh).
  exists blocks. repeat split; [done..|].
  rewrite Hrels in Hadded. by apply app_inv_head in Hadded as ->.
Qed.

(** An edge of a walk of the inference notebook ends within [depth]
    hops of the node the walk started at. *)
Lemma walked_within_hops kg depth0 plots e :
  (depth0 > 0)%Z →
  walked kg (Some (Z.to_nat depth0)) plots e →
  ∃ source, plot_matched kg plots source ∧
            e.2 ∈ neighbors kg e.1 ∧ within_hops kg (Z.to_nat depth0) source e.2.
Proof.
  intros Hpos (source & Hmatch & Hin). exists source. split; [done|].
  destruct e as [u v]. apply (dfs_edges_within kg source); [lia | done].
Qed.

(** ** What a call takes from the generator *)

Section samples.
Context `{!Random rng}.

Lemma kb_loop_generation_state depth0 kbs :
  ∀ st (g : rng),
    (foldl (kb_step_generation depth0) (st, g) kbs).2 = after_draws depth0 kbs g.
Proof.
  induction kbs as [|kb kbs IH]; intros st g; [done|].
  rewrite foldl_step. cbn [after_draws].
  destruct (decide (depth0 > 0)%Z) as [Hpos|Hpos].
  - rewrite kb_step_generation_sampled by done. cbv zeta. by rewrite IH.
  - rewrite kb_step_generation_all by lia. rewrite IH.
    clear IH. induction kbs as [|kb' kbs IH]; [done|].
    cbn [after_draws]. by rewrite decide_False by done.
Qed.

Lemma text_kg_generation_state G input plots (g : rng) :
  (text_kg_generation G input plots g).2 = after_draws (KG_DEPTH G) (ex_kbs input) g.
Proof.
  unfold text_kg_generation.
  rewrite <- (kb_loop_generation_state (KG_DEPTH G) (ex_kbs input) init_cstate g).
  by destruct (foldl _ _ _).
Qed.

Lemma create_generation_state G input (g : rng) :
  (create_generation_prompt_formats G input g).2 =
    if decide (TRAIN_TYPE G = "text_kg")
    then after_draws (KG_DEPTH G) (ex_kbs input) g else g.
Proof.
  unfold create_generation_prompt_formats.
  destruct (decide (TRAIN_TYPE G = "text_kg")); [|done].
  rewrite <- (text_kg_generation_state G input (plots_of input) g).
  by destruct (text_kg_generation _ _ _ _).
Qed.

Lemma create_generation_of_samples G input (g : rng) :
  (create_generation_prompt_formats G input g).1 =
    prompt_of_samples G input (draws (KG_DEPTH G) (ex_kbs input) g).
Proof.
  unfold prompt_of_samples. cbv zeta.
  destruct (decide (TRAIN_TYPE G = "text_kg")) as [Hmode|Hmode].
  - rewrite create_generation_text_kg, text_kg_generation_unfold by done. cbv zeta.
    unfold emitted_relations.
    destruct (decide (KG_DEPTH G > 0)%Z) as [Hpos|Hpos].
    + rewrite bool_decide_eq_true_2 by done.
      destruct (kg_map G !! ex_game input) as [kg|]; [|done].
      cbn [getitem mbind result_bind].
      by destruct (for_each _ _ _).
    + by rewrite bool_decide_eq_false_2 by done.
  - rewrite create_generation_plain by done. cbn [fst].
    by destruct (render_quest (ex_quest input)).
Qed.

End samples.

Lemma after_draws_without_graph `{!Random rng} depth0 kbs (g : rng) :
  (depth0 ≤ 0)%Z → after_draws depth0 kbs g = g.
Proof.
  intros Hle. destruct kbs; [done|]. cbn [after_draws].
  destruct (decide (depth0 > 0)%Z); [lia | done].
Qed.

Lemma prompt_of_samples_unused G input samples samples' :
  TRAIN_TYPE G ≠ "text_kg" ∨ (KG_DEPTH G ≤ 0)%Z →
  prompt_of_samples G input samples = prompt_of_samples G input samples'.
Proof.
  intros Hnone. unfold prompt_of_samples. cbv zeta.
  destruct (decide (TRAIN_TYPE G = "text_kg")) as [Hmode|Hmode]; [|done].
  destruct Hnone as [?|Hle]; [done|]. destruct (decide (KG_DEPTH G > 0)%Z); [lia | done].
Qed.

(** ** The claims of the specification *)

(** Claim C1.  For an edge whose target is not yet completed the graph
    loop should introduce the target by its own name, "<e2> is a
    <type(e2)>. ".  On the edge Delilah -> Brigmore Manor the training
    notebook writes "Delilah is a location. " instead, the target's type
    under the source's name, where the inference notebook writes
    "Brigmore Manor is a location. "; the prompt of the training notebook
    for the row carries the wrong sentence, and the last node of the walk
    is never introduced under its own name. *)
Theorem training_introduces_target_under_source_name :
  let kg := kg_isles in
  let edge := ("Delilah", "Brigmore Manor") in
  background <$> edge_step_training kg init_cstate edge =
    Ok ("Delilah is a character. Delilah is the leader of the Brigmore Witches. " +:+ nl +:+
        "Delilah is a location. Brigmore Manor is a lair for the city's outlaws. " +:+ nl +:+
        "Delilah is present in Brigmore Manor. " +:+ nl) ∧
  background <$> edge_step_generation kg init_cstate edge =
    Ok ("Delilah is a character. Delilah is the leader of the Brigmore Witches. " +:+ nl +:+
        "Brigmore Manor is a location. Brigmore Manor is a lair for the city's outlaws. " +:+ nl +:+
        "Delilah is present in Brigmore Manor. " +:+ nl) ∧
  ∃ input', create_training_prompt_formats (notebook "text_kg" 2 registry) (row [] []) = Ok input' ∧
    ∃ prompt, ex_text input' = Some prompt ∧
      str_in "Delilah is a location. " prompt = true ∧
      str_in "Empire of the Isles is a location. " prompt = false.
Proof.
  repeat split; [vm_compute; reflexivity..|].
  eexists. split; [vm_compute; reflexivity|].
  eexists. split; [reflexivity|]. split; vm_compute; reflexivity.
Qed.

(** Claim C2.  For every edge that the graph loop processes (not
    skipped, attributes present), in either notebook, the text appended
    after the introductions is the relation sentence chosen by the label,
    "connected to", "present in" (with the target on both sides when the
    source is a location), "held by" (reversed when the source is a
    character), nothing for any other label, and then a line feed in
    every case; the edge is recorded as completed. *)
Theorem edge_relation_sentence_by_label kg st ent1 ent2 e1_type e1_desc e2_type e2_desc rel :
  ¬ described st ent1 ent2 →
  edge_data_ok kg ent1 ent2 e1_type e1_desc e2_type e2_desc rel →
  let st0 := introduce ent1 ent1 e1_type e1_desc st in
  let stG := introduce ent2 ent2 e2_type e2_desc st0 in
  let stT := introduce ent1 ent2 e2_type e2_desc st0 in
  edge_step_generation kg st (ent1, ent2) =
    Ok {| background := background stG +:+ relation_sentence rel ent1 e1_type ent2 +:+ nl;
          completed_rels := completed_rels st ++ [(ent1, ent2)];
          completed_nodes := completed_nodes stG |} ∧
  edge_step_training kg st (ent1, ent2) =
    Ok {| background := background stT +:+ relation_sentence rel ent1 e1_type ent2 +:+ nl;
          completed_rels := completed_rels st ++ [(ent1, ent2)];
          completed_nodes := completed_nodes stT |}.
Proof.
  intros Hnew Hdata. split.
  - by apply edge_step_generation_run.
  - by apply edge_step_training_run.
Qed.

(** The edge Brigmore Manor -> Empire of the Isles of the sample graph. *)
Lemma edge_relation_sentence_by_label_witness :
  background <$> edge_step_generation kg_isles init_cstate ("Brigmore Manor", "Empire of the Isles") =
    Ok ("Brigmore Manor is a location. Brigmore Manor is a lair for the city's outlaws. " +:+ nl +:+
        "Empire of the Isles is a location. Empire of the Isles is a kingdom. " +:+ nl +:+
        "Brigmore Manor is connected to Empire of the Isles. " +:+ nl).
Proof.
  destruct (edge_relation_sentence_by_label kg_isles init_cstate
              "Brigmore Manor" "Empire of the Isles"
              "location" "a lair for the city's outlaws" "location" "a kingdom"
              "connected to") as [HG _].
  - unfold described. simpl. intros [H|H]; by apply elem_of_nil in H.
  - repeat split; vm_compute; reflexivity.
  - rewrite HG. vm_compute. reflexivity.
Defined.

(** Claim C3, amended.  In the inference notebook a kb entry at a
    positive depth emits [random.sample(relations, min(depth - 1,
    len(relations)))], a list of that length drawn at distinct positions
    of its relations, after its description; at a depth of zero or less
    it emits all its relations in their order, without the description.
    The training notebook emits all the relations of every entry in
    their order, whatever the depth. *)
Theorem kb_relations_emitted `{!Random rng, !RandomSpec rng} depth0 st (g : rng) kb :
  let rels := kb_relations kb in
  ((depth0 > 0)%Z →
     let s := random_sample g rels (Z.to_nat (depth0 - 1) `min` length rels) in
     length s.1 = Z.to_nat (depth0 - 1) `min` length rels ∧
     s.1 ⊆+ rels ∧
     kb_step_generation depth0 (st, g) kb = (after_kb true ". " st kb s.1, s.2)) ∧
  ((depth0 ≤ 0)%Z →
     kb_step_generation depth0 (st, g) kb = (after_kb false ". " st kb rels, g)) ∧
  kb_step_training st kb = after_kb true "." st kb rels.
Proof.
  repeat split.
  - apply random_sample_spec. lia.
  - apply random_sample_spec. lia.
  - by apply kb_step_generation_sampled.
  - by apply kb_step_generation_all.
  - apply kb_step_training_all.
Qed.

(** The entry of Brigmore Manor at depth 2, with a generator that draws
    position 1, and at depth 0. *)
Lemma kb_relations_emitted_witness :
  (2 > 0)%Z ∧
  kb_step_generation 2 (init_cstate, [1]) kb_manor =
    (after_kb true ". " init_cstate kb_manor [("held by", "Delilah")], []) ∧
  (0 ≤ 0)%Z ∧
  kb_step_generation 0 (init_cstate, [1]) kb_manor =
    (after_kb false ". " init_cstate kb_manor (kb_relations kb_manor), [1]).
Proof.
  split; [lia|]. split.
  - destruct (kb_relations_emitted (rng := list nat) 2 init_cstate [1] kb_manor)
      as [Hpos _].
    destruct Hpos as (_ & _ & Hpos); [lia|].
    rewrite Hpos. vm_compute. reflexivity.
  - split; [lia|].
    destruct (kb_relations_emitted (rng := list nat) 0 init_cstate [1] kb_manor)
      as (_ & Hall & _).
    apply Hall. lia.
Defined.

(** Claim C3 as stated fails on the training notebook: with
    [KG_DEPTH = 2] the entry of Brigmore Manor emits its three relations,
    not a sample of [min(2 - 1, 3) = 1]. *)
Lemma training_emits_every_relation :
  let G := notebook "text_kg" 2 registry in
  let input := row [kb_manor] [] in
  background <$> text_kg_training G input (plots_of input) =
    Ok ("### Background:" +:+ nl +:+
        "Brigmore Manor is a location. Brigmore Manor is a lair for the city's outlaws. " +:+
        "Brigmore Manor is connected to Empire of the Isles." +:+
        "Brigmore Manor is held by Delilah." +:+
        "Brigmore Manor is present in Empire of the Isles." +:+ nl) ∧
  ¬ emits_sample (KG_DEPTH G) kb_manor init_cstate (kb_step_training init_cstate kb_manor).
Proof.
  split; [vm_compute; reflexivity|].
  intros (s & Hlen & _ & Hrels).
  apply (f_equal length) in Hrels. rewrite length_app in Hrels.
  unfold kb_pairs in Hrels. rewrite length_fmap, Hlen in Hrels.
  vm_compute in Hrels. discriminate.
Qed.

(** Claim C4, amended.  In the inference notebook the graph loop runs
    exactly at a positive depth.  At a depth of zero or less the
    background is the header and the blocks of the kb entries with all
    their relations, whatever the registry and the plots.  At a positive
    depth it is the result of the graph loop started from the kb blocks;
    when that returns, the game has a graph, everything written and
    recorded after the kb loop is the blocks and the pairs of edges of
    walks from plot-matched nodes, each edge ending at most [depth] hops
    from the node its walk started at, and every edge that
    [nx.dfs_edges] yields with [depth_limit=depth] from a plot-matched
    node is recorded in one direction.  The training notebook always runs
    the graph loop and gives the same background at every depth; its
    walks are those of [nx.dfs_edges] without a depth limit: what it
    writes and records are blocks and pairs of edges of these walks, and
    every edge of these walks is recorded in one direction. *)
Theorem graph_loop_runs_at_positive_depth `{!Random rng} G input plots (g : rng) :
  let kbs := ex_kbs input in
  let depth0 := KG_DEPTH G in
  ((depth0 ≤ 0)%Z →
     text_kg_generation G input plots g =
       (Ok (headed (after_kbs false ". " init_cstate kbs (kb_relations <$> kbs))), g)) ∧
  ((depth0 > 0)%Z →
     let stA := after_kbs true ". " init_cstate kbs (draws depth0 kbs g) in
     (text_kg_generation G input plots g).1 =
       headed <$>
         (kg ← getitem (kg_map G !! ex_game input);
          for_each (node_step_generation kg depth0 plots) (kg_nodes kg) stA) ∧
     ∀ st', (text_kg_generation G input plots g).1 = Ok st' →
       ∃ kg, kg_map G !! ex_game input = Some kg ∧
         graph_extended kg
           (λ e, ∃ source, plot_matched kg plots source ∧
                           e.2 ∈ neighbors kg e.1 ∧
                           within_hops kg (Z.to_nat depth0) source e.2)
           (headed stA) st' ∧
         ∀ source e, plot_matched kg plots source →
                     e ∈ dfs_edges kg source (Some (Z.to_nat depth0)) →
                     described st' e.1 e.2) ∧
  (let stA := after_kbs true "." init_cstate kbs (kb_relations <$> kbs) in
   text_kg_training G input plots =
     headed <$>
       (kg ← getitem (kg_map G !! ex_game input);
        for_each (node_step_training kg plots) (kg_nodes kg) stA) ∧
   (∀ other, text_kg_training (notebook (TRAIN_TYPE G) other (kg_map G)) input plots =
             text_kg_training G input plots) ∧
   ∀ st', text_kg_training G input plots = Ok st' →
     ∃ kg, kg_map G !! ex_game input = Some kg ∧
       graph_extended kg (walked kg None plots) (headed stA) st' ∧
       ∀ source e, plot_matched kg plots source →
                   e ∈ dfs_edges kg source None →
                   described st' e.1 e.2).
Proof.
  cbv zeta. split; [|split].
  - apply text_kg_generation_without_graph.
  - intros Hpos.
    assert ((text_kg_generation G input plots g).1 =
            headed <$>
              (kg ← getitem (kg_map G !! ex_game input);
               for_each (node_step_generation kg (KG_DEPTH G) plots) (kg_nodes kg)
                 (after_kbs true ". " init_cstate (ex_kbs input)
                    (draws (KG_DEPTH G) (ex_kbs input) g)))) as Hunfold.
    { rewrite text_kg_generation_unfold. cbv zeta. unfold emitted_relations.
      rewrite bool_decide_eq_true_2 by done.
      by destruct (decide (KG_DEPTH G > 0)%Z). }
    split; [done|]. intros st'. rewrite Hunfold.
    intros (st0 & Hrun & ->)%fmap_Ok_inv.
    destruct (kg_map G !! ex_game input) as [kg|]; [|done].
    cbn [getitem mbind result_bind] in Hrun.
    exists kg. split; [done|]. split.
    + apply graph_extended_headed.
      eapply graph_extended_weaken; [|by apply graph_loop_generation_blocks].
      intros e He. by apply walked_within_hops.
    + intros source e Hmatch Hin.
      apply (graph_loop_generation_walked _ _ _ _ _ Hrun e). by exists source.
  - split; [apply text_kg_training_unfold|]. split; [done|].
    intros st'. rewrite text_kg_training_unfold. cbv zeta.
    intros (st0 & Hrun & ->)%fmap_Ok_inv.
    destruct (kg_map G !! ex_game input) as [kg|]; [|done].
    cbn [getitem mbind result_bind] in Hrun.
    exists kg. split; [done|]. split.
    + apply graph_extended_headed. by apply graph_loop_training_blocks.
    + intros source e Hmatch Hin.
      apply (graph_loop_training_walked _ _ _ _ Hrun e). by exists source.
Qed.

(** The entry of Brigmore Manor at depth 0; at depth 1 the walk from
    Delilah yields the edge to Brigmore Manor, which is recorded, and all
    that is recorded after the pairs of the kb loop ends one hop from a
    plot-matched node. *)
Lemma graph_loop_runs_at_positive_depth_witness :
  let input := row [kb_manor] [] in
  let G := notebook "text_kg" 1 registry in
  let st' := returned (text_kg_generation G input (plots_of input) [1]).1 in
  (0 ≤ 0)%Z ∧
  text_kg_generation (notebook "text_kg" 0 registry) input (plots_of input) [1] =
    (Ok (headed (after_kbs false ". " init_cstate [kb_manor] [kb_relations kb_manor])), [1]) ∧
  (1 > 0)%Z ∧
  (text_kg_generation G input (plots_of input) [1]).1 = Ok st' ∧
  plot_matched kg_isles (plots_of input) "Delilah" ∧
  ("Delilah", "Brigmore Manor") ∈ dfs_edges kg_isles "Delilah" (Some 1) ∧
  described st' "Delilah" "Brigmore Manor" ∧
  completed_rels st' = [("Delilah", "Brigmore Manor")].
Proof.
  cbv zeta. split; [lia|]. split.
  { apply (graph_loop_runs_at_positive_depth (notebook "text_kg" 0 registry)
             (row [kb_manor] []) (plots_of (row [kb_manor] [])) [1]).
    simpl. lia. }
  split; [lia|].
  assert ((text_kg_generation (notebook "text_kg" 1 registry) (row [kb_manor] [])
             (plots_of (row [kb_manor] [])) [1]).1 =
          Ok (returned (text_kg_generation (notebook "text_kg" 1 registry)
                (row [kb_manor] []) (plots_of (row [kb_manor] [])) [1]).1)) as Hrun
    by (vm_compute; reflexivity).
  assert (plot_matched kg_isles (plots_of (row [kb_manor] [])) "Delilah") as Hmatch.
  { split; [eexists; apply list_elem_of_here | vm_compute; reflexivity]. }
  assert (("Delilah", "Brigmore Manor") ∈ dfs_edges kg_isles "Delilah" (Some 1)) as Hin
    by (vm_compute; apply list_elem_of_here).
  split; [exact Hrun|]. split; [exact Hmatch|]. split; [exact Hin|].
  split; [|vm_compute; reflexivity].
  destruct (graph_loop_runs_at_positive_depth (notebook "text_kg" 1 registry)
              (row [kb_manor] []) (plots_of (row [kb_manor] [])) [1])
    as (_ & Hpos & _).
  destruct Hpos as [_ Hloop]; [simpl; lia|].
  destruct (Hloop _ Hrun) as (kg & Hkg & _ & Hwalked).
  injection Hkg as <-.
  exact (Hwalked "Delilah" ("Delilah", "Brigmore Manor") Hmatch Hin).
Defined.

(** Claim C4 as stated fails on the training notebook: at depth 0 and
    without any kb entry the background describes the three nodes of the
    graph, and at depth 1 it is the same, although Empire of the Isles is
    two hops away from Delilah. *)
Lemma training_walks_the_graph_at_any_depth :
  let input := row [] [] in
  background <$> text_kg_training (notebook "text_kg" 0 registry) input (plots_of input) =
    Ok ("### Background:" +:+ nl +:+
        "Delilah is a character. Delilah is the leader of the Brigmore Witches. " +:+ nl +:+
        "Delilah is a location. Brigmore Manor is a lair for the city's outlaws. " +:+ nl +:+
        "Delilah is present in Brigmore Manor. " +:+ nl +:+
        "Brigmore Manor is a location. Empire of the Isles is a kingdom. " +:+ nl +:+
        "Brigmore Manor is connected to Empire of the Isles. " +:+ nl) ∧
  text_kg_training (notebook "text_kg" 1 registry) input (plots_of input) =
    text_kg_training (notebook "text_kg" 0 registry) input (plots_of input) ∧
  ¬ within_hops kg_isles 1 "Delilah" "Empire of the Isles".
Proof.
  simpl. split; [vm_compute; reflexivity|]. split; [reflexivity|].
  intros [H|H]%within_one_hop; [done|].
  vm_compute in H. apply list_elem_of_singleton in H. done.
Qed.

(** Claim C5, amended.  In both notebooks the graph loop writes one
    block for each pair it records and nothing else: the background is
    the header, the blocks of the kb loop and then the blocks of the
    recorded pairs in their order, each the block of an edge of a walk
    with its one relation sentence.  The pairs it records are new with
    respect to the pairs of the kb loop and to the edges processed
    before, in both directions, so when the kb loop recorded no pair
    twice, in either direction, the whole call records none twice; and
    every edge of a walk ends up recorded in one direction.  The kb loop
    itself does not look at [completed_rels]. *)
Theorem graph_loop_describes_new_pairs :
  (∀ `{!Random rng} G input plots (g : rng) st',
     (text_kg_generation G input plots g).1 = Ok st' →
     let stA := after_kbs (bool_decide (KG_DEPTH G > 0)%Z) ". " init_cstate (ex_kbs input)
                  (emitted_relations (KG_DEPTH G) (ex_kbs input) g) in
     let limit := Some (Z.to_nat (KG_DEPTH G)) in
     (∃ blocks : list ((string * string) * string),
        background st' = background (headed stA) +:+ cat blocks.*2 ∧
        completed_rels st' = completed_rels stA ++ blocks.*1 ∧
        Forall (λ b, ∃ kg, kg_map G !! ex_game input = Some kg ∧
                           walked kg limit plots b.1 ∧ edge_block kg b) blocks ∧
        fresh_after (completed_rels stA) blocks.*1) ∧
     (described_once (completed_rels stA) → described_once (completed_rels st')) ∧
     ((KG_DEPTH G > 0)%Z →
      ∃ kg, kg_map G !! ex_game input = Some kg ∧
            ∀ e, walked kg limit plots e → described st' e.1 e.2)) ∧
  (∀ G input plots st',
     text_kg_training G input plots = Ok st' →
     let stA := after_kbs true "." init_cstate (ex_kbs input)
                  (kb_relations <$> ex_kbs input) in
     (∃ blocks : list ((string * string) * string),
        background st' = background (headed stA) +:+ cat blocks.*2 ∧
        completed_rels st' = completed_rels stA ++ blocks.*1 ∧
        Forall (λ b, ∃ kg, kg_map G !! ex_game input = Some kg ∧
                           walked kg None plots b.1 ∧ edge_block kg b) blocks ∧
        fresh_after (completed_rels stA) blocks.*1) ∧
     (described_once (completed_rels stA) → described_once (completed_rels st')) ∧
     (∃ kg, kg_map G !! ex_game input = Some kg ∧
            ∀ e, walked kg None plots e → described st' e.1 e.2)).
Proof.
  split.
  - intros rng ? G input plots g st' Hrun. cbv zeta.
    destruct (text_kg_generation_inv G input plots g st' Hrun) as [Hrels _].
    cbv zeta in Hrels.
    assert (described_once
              (completed_rels
                 (after_kbs (bool_decide (KG_DEPTH G > 0)%Z) ". " init_cstate (ex_kbs input)
                    (emitted_relations (KG_DEPTH G) (ex_kbs input) g))) →
            described_once (completed_rels st')) as Honce.
    { destruct Hrels as (added & -> & Hfresh). intros Honce.
      by apply described_once_fresh. }
    rewrite text_kg_generation_unfold in Hrun. cbv zeta in Hrun.
    apply fmap_Ok_inv in Hrun as (st0 & Hrun & ->).
    destruct (decide (KG_DEPTH G > 0)%Z) as [Hpos|Hpos].
    + destruct (kg_map G !! ex_game input) as [kg|]; [|done].
      cbn [getitem mbind result_bind] in Hrun.
      split; [|split; [done|]].
      * pose proof (graph_extended_headed _ _ _ _
                      (graph_loop_generation_blocks _ _ _ _ _ Hrun)) as Hext.
        destruct (graph_extended_rels _ _ _ _ Hext Hrels)
          as (blocks & Hbg & Hpairs & Hall & Hfresh).
        exists blocks. repeat split; [done..| |done].
        eapply Forall_impl; [done|]. intros b [Hw Hb]. by exists kg.
      * intros _. exists kg. split; [done|].
        by apply (graph_loop_generation_walked _ _ _ _ _ Hrun).
    + injection Hrun as <-. split; [|split; [done | lia]].
      exists []. cbn [fmap list_fmap]. unfold cat. cbn [foldr].
      rewrite append_empty_r, app_nil_r. repeat split. constructor.
  - intros G input plots st' Hrun. cbv zeta.
    destruct (text_kg_training_inv G input plots st' Hrun) as [Hrels _].
    cbv zeta in Hrels.
    assert (described_once
              (completed_rels
                 (after_kbs true "." init_cstate (ex_kbs input)
                    (kb_relations <$> ex_kbs input))) →
            described_once (completed_rels st')) as Honce.
    { destruct Hrels as (added & -> & Hfresh). intros Honce.
      by apply described_once_fresh. }
    rewrite text_kg_training_unfold in Hrun. cbv zeta in Hrun.
    apply fmap_Ok_inv in Hrun as (st0 & Hrun & ->).
    destruct (kg_map G !! ex_game input) as [kg|]; [|done].
    cbn [getitem mbind result_bind] in Hrun.
    split; [|split; [done|]].
    + pose proof (graph_extended_headed _ _ _ _
                    (graph_loop_training_blocks _ _ _ _ Hrun)) as Hext.
      destruct (graph_extended_rels _ _ _ _ Hext Hrels)
        as (blocks & Hbg & Hpairs & Hall & Hfresh).
      exists blocks. repeat split; [done..| |done].
      eapply Forall_impl; [done|]. intros b [Hw Hb]. by exists kg.
    + exists kg. split; [done|].
      by apply (graph_loop_training_walked _ _ _ _ Hrun).
Qed.

(** The entry of Delilah at depth 2, in both notebooks: the graph loop
    records the edge from Brigmore Manor, whose block follows the kb
    block, and skips the edge from Delilah, which the kb loop recorded. *)
Lemma graph_loop_describes_new_pairs_witness :
  let G := notebook "text_kg" 2 registry in
  let input := row [kb_delilah] [] in
  let stG := returned (text_kg_generation G input (plots_of input) [0]).1 in
  let stT := returned (text_kg_training G input (plots_of input)) in
  (text_kg_generation G input (plots_of input) [0]).1 = Ok stG ∧
  text_kg_training G input (plots_of input) = Ok stT ∧
  (∃ blocks : list ((string * string) * string),
     completed_rels stG = [("Delilah", "Brigmore Manor")] ++ blocks.*1 ∧
     fresh_after [("Delilah", "Brigmore Manor")] blocks.*1 ∧
     background stG =
       "### Background:" +:+ nl +:+
       "Delilah is a character. Delilah is the leader of the Brigmore Witches. " +:+
       "Delilah is present in Brigmore Manor. " +:+ nl +:+ cat blocks.*2) ∧
  (∃ blocks : list ((string * string) * string),
     completed_rels stT = [("Delilah", "Brigmore Manor")] ++ blocks.*1 ∧
     fresh_after [("Delilah", "Brigmore Manor")] blocks.*1) ∧
  completed_rels stG =
    [("Delilah", "Brigmore Manor"); ("Brigmore Manor", "Empire of the Isles")].
Proof.
  cbv zeta.
  split; [vm_compute; reflexivity|]. split; [vm_compute; reflexivity|].
  destruct graph_loop_describes_new_pairs as [Hgen Htrain]. split; [|split].
  - destruct (Hgen (list nat) _ (notebook "text_kg" 2 registry) (row [kb_delilah] [])
                (plots_of (row [kb_delilah] [])) [0]
                (returned (text_kg_generation (notebook "text_kg" 2 registry)
                   (row [kb_delilah] []) (plots_of (row [kb_delilah] [])) [0]).1))
      as [(blocks & Hbg & Hrels & _ & Hfresh) _]; [vm_compute; reflexivity|].
    exists blocks. split; [exact Hrels|]. split; [exact Hfresh|]. exact Hbg.
  - destruct (Htrain (notebook "text_kg" 2 registry) (row [kb_delilah] [])
                (plots_of (row [kb_delilah] []))
                (returned (text_kg_training (notebook "text_kg" 2 registry)
                   (row [kb_delilah] []) (plots_of (row [kb_delilah] [])))))
      as [(blocks & _ & Hrels & _ & Hfresh) _]; [vm_compute; reflexivity|].
    exists blocks. split; [exact Hrels|]. exact Hfresh.
  - vm_compute. reflexivity.
Defined.

(** Claim C5 as stated fails in the kb loop: when the entries of
    Brigmore Manor and of Empire of the Isles each name the other, at
    depth 2 both sentences are emitted, one for each direction of the
    pair. *)
Lemma kb_loop_describes_a_pair_twice :
  let G := notebook "text_kg" 2 registry in
  let input := row [kb_manor_linked; kb_empire_linked] [] in
  let st' := returned (text_kg_generation G input (plots_of input) [0]).1 in
  (text_kg_generation G input (plots_of input) [0]).1 = Ok st' ∧
  background st' =
    "### Background:" +:+ nl +:+
    "Brigmore Manor is a location. Brigmore Manor is a lair for the city's outlaws. " +:+
    "Brigmore Manor is connected to Empire of the Isles. " +:+ nl +:+
    "Empire of the Isles is a location. Empire of the Isles is a kingdom. " +:+
    "Empire of the Isles is connected to Brigmore Manor. " +:+ nl +:+
    "Delilah is a character. Delilah is the leader of the Brigmore Witches. " +:+ nl +:+
    "Delilah is present in Brigmore Manor. " +:+ nl ∧
  completed_rels st' =
    [("Brigmore Manor", "Empire of the Isles"); ("Empire of the Isles", "Brigmore Manor");
     ("Delilah", "Brigmore Manor")] ∧
  ¬ described_once (completed_rels st').
Proof.
  cbv zeta. repeat split; [vm_compute; reflexivity..|].
  intros Honce.
  destruct (Honce 0 1 "Brigmore Manor" "Empire of the Isles") as [_ Hback];
    [lia | vm_compute; reflexivity|].
  apply Hback. vm_compute. reflexivity.
Qed.

(** The text of a relation sentence does not tell the pair: the edges
    from Attic and from Barn to Castle are two pairs, recorded once each,
    and both are phrased "Castle is present in Castle. ", in both
    notebooks. *)
Lemma graph_loop_repeats_a_sentence :
  let G := notebook "text_kg" 1 registry_castle in
  let plots := plots_of row_castle in
  let stG := returned (text_kg_generation G row_castle plots [0]).1 in
  let stT := returned (text_kg_training G row_castle plots) in
  (text_kg_generation G row_castle plots [0]).1 = Ok stG ∧
  text_kg_training G row_castle plots = Ok stT ∧
  background stG =
    "### Background:" +:+ nl +:+
    "Attic is a location. Attic is a dusty room. " +:+ nl +:+
    "Castle is a location. Castle is a fortress. " +:+ nl +:+
    "Castle is present in Castle. " +:+ nl +:+
    "Barn is a location. Barn is a shed. " +:+ nl +:+
    "Castle is present in Castle. " +:+ nl ∧
  completed_rels stG = [("Attic", "Castle"); ("Barn", "Castle")] ∧
  completed_rels stT = [("Attic", "Castle"); ("Barn", "Castle")] ∧
  count_sub "Castle is present in Castle. " (background stG) = 2 ∧
  count_sub "Castle is present in Castle. " (background stT) = 2.
Proof. cbv zeta. repeat split; vm_compute; reflexivity. Qed.

(** Claim C6, amended.  The graph loop introduces a node only when it
    is not in [completed_nodes], and records it: an introduction changes
    nothing for a completed node and otherwise appends the introduction
    and the node.  In both notebooks the nodes the graph loop records are
    pairwise distinct and are no kb entry's name, so when the names of
    the kb entries are pairwise distinct no node is recorded twice in the
    call.  The kb loop does not look at [completed_nodes], and the text
    "<e> is a " may also open a description. *)
Theorem graph_loop_introduces_new_nodes :
  (∀ ent e_type e_desc st,
     introduce ent ent e_type e_desc st =
       if decide (ent ∈ completed_nodes st) then st
       else {| background := background st +:+ introduction ent e_type e_desc;
               completed_rels := completed_rels st;
               completed_nodes := completed_nodes st ++ [ent] |}) ∧
  (∀ `{!Random rng} G input plots (g : rng) st',
     (text_kg_generation G input plots g).1 = Ok st' →
     let names := kb_name <$> ex_kbs input in
     (∃ added, completed_nodes st' = names ++ added ∧ NoDup added ∧
               ∀ ent, ent ∈ added → ent ∉ names) ∧
     (NoDup names → NoDup (completed_nodes st'))) ∧
  (∀ G input plots st',
     text_kg_training G input plots = Ok st' →
     let names := kb_name <$> ex_kbs input in
     (∃ added, completed_nodes st' = names ++ added ∧ NoDup added ∧
               ∀ ent, ent ∈ added → ent ∉ names) ∧
     (NoDup names → NoDup (completed_nodes st'))).
Proof.
  split; [|split].
  - intros ent e_type e_desc st. destruct (decide (ent ∈ completed_nodes st)).
    + by apply introduce_old.
    + by rewrite introduce_new by done.
  - intros rng ? G input plots g st' Hrun.
    destruct (text_kg_generation_inv G input plots g st' Hrun) as [_ Hnodes].
    split; [done|]. destruct Hnodes as (added & -> & Hnd & Hnew). simpl.
    intros Hnames. apply NoDup_app. repeat split; [done| |done].
    intros ent Hin Hadd. by apply (Hnew ent Hadd).
  - intros G input plots st' Hrun.
    destruct (text_kg_training_inv G input plots st' Hrun) as [_ Hnodes].
    split; [done|]. destruct Hnodes as (added & -> & Hnd & Hnew). simpl.
    intros Hnames. apply NoDup_app. repeat split; [done| |done].
    intros ent Hin Hadd. by apply (Hnew ent Hadd).
Qed.

(** The entry of Delilah at depth 2, in both notebooks. *)
Lemma graph_loop_introduces_new_nodes_witness :
  let G := notebook "text_kg" 2 registry in
  let input := row [kb_delilah] [] in
  let stG := returned (text_kg_generation G input (plots_of input) [0]).1 in
  let stT := returned (text_kg_training G input (plots_of input)) in
  (text_kg_generation G input (plots_of input) [0]).1 = Ok stG ∧
  text_kg_training G input (plots_of input) = Ok stT ∧
  NoDup ["Delilah"] ∧
  NoDup (completed_nodes stG) ∧
  NoDup (completed_nodes stT).
Proof.
  cbv zeta.
  split; [vm_compute; reflexivity|]. split; [vm_compute; reflexivity|].
  split; [apply NoDup_singleton|].
  destruct graph_loop_introduces_new_nodes as (_ & Hgen & Htrain). split.
  - destruct (Hgen (list nat) _ (notebook "text_kg" 2 registry) (row [kb_delilah] [])
                (plots_of (row [kb_delilah] [])) [0]
                (returned (text_kg_generation (notebook "text_kg" 2 registry)
                   (row [kb_delilah] []) (plots_of (row [kb_delilah] [])) [0]).1))
      as [_ Hnd]; [vm_compute; reflexivity|].
    apply Hnd. apply NoDup_singleton.
  - destruct (Htrain (notebook "text_kg" 2 registry) (row [kb_delilah] [])
                (plots_of (row [kb_delilah] []))
                (returned (text_kg_training (notebook "text_kg" 2 registry)
                   (row [kb_delilah] []) (plots_of (row [kb_delilah] [])))))
      as [_ Hnd]; [vm_compute; reflexivity|].
    apply Hnd. apply NoDup_singleton.
Defined.

(** Claim C6 as stated fails: the description of Brigmore Manor starts
    with "a ", so "Brigmore Manor is a " occurs twice in the background
    of the inference notebook; and a row that lists the entry of Delilah
    twice introduces Delilah twice. *)
Lemma introduction_text_occurs_twice :
  let G := notebook "text_kg" 2 registry in
  (let input := row [kb_delilah] [] in
   let st' := returned (text_kg_generation G input (plots_of input) [0]).1 in
   (text_kg_generation G input (plots_of input) [0]).1 = Ok st' ∧
   background st' =
     "### Background:" +:+ nl +:+
     "Delilah is a character. Delilah is the leader of the Brigmore Witches. " +:+
     "Delilah is present in Brigmore Manor. " +:+ nl +:+
     "Brigmore Manor is a location. Brigmore Manor is a lair for the city's outlaws. " +:+ nl +:+
     "Empire of the Isles is a location. Empire of the Isles is a kingdom. " +:+ nl +:+
     "Brigmore Manor is connected to Empire of the Isles. " +:+ nl ∧
   count_sub "Brigmore Manor is a " (background st') = 2) ∧
  (let input := row [kb_delilah; kb_delilah] [] in
   let st' := returned (text_kg_generation G input (plots_of input) [0]).1 in
   (text_kg_generation G input (plots_of input) [0]).1 = Ok st' ∧
   count_sub "Delilah is a character. " (background st') = 2 ∧
   completed_nodes st' =
     ["Delilah"; "Delilah"; "Brigmore Manor"; "Empire of the Isles"]).
Proof. simpl. repeat split; vm_compute; reflexivity. Qed.

(** Claim C7.  The samples [random.sample] returns in the kb loop are
    all that a call of the inference notebook's function takes from the
    generator: its result is [prompt_of_samples], a function of the
    globals, the row and these samples, and the generator is left in the
    state after these draws, one for each kb entry in [text_kg] mode at a
    positive depth and none otherwise.  So two calls from generator
    states that draw the same samples, even of different generators,
    give the same result; in the other modes and at a depth of zero or
    less the result is the same for every generator, which is left as it
    was; a second call on the row the first call updated, from the same
    generator state, gives the same row and the same generator state;
    and the training notebook's function draws nothing, a second call on
    the updated row gives the same row. *)
Theorem same_seed_same_prompt :
  (∀ `{!Random rng} G input (g : rng),
     let first := create_generation_prompt_formats G input g in
     first.1 = prompt_of_samples G input (draws (KG_DEPTH G) (ex_kbs input) g) ∧
     first.2 = (if decide (TRAIN_TYPE G = "text_kg")
                then after_draws (KG_DEPTH G) (ex_kbs input) g else g) ∧
     create_generation_prompt_formats G (row_after input first.1) g = first) ∧
  (∀ `{!Random rng1, !Random rng2} G input (g1 : rng1) (g2 : rng2),
     draws (KG_DEPTH G) (ex_kbs input) g1 = draws (KG_DEPTH G) (ex_kbs input) g2 →
     (create_generation_prompt_formats G input g1).1 =
     (create_generation_prompt_formats G input g2).1) ∧
  (∀ `{!Random rng} G input (g : rng) samples,
     TRAIN_TYPE G ≠ "text_kg" ∨ (KG_DEPTH G ≤ 0)%Z →
     create_generation_prompt_formats G input g = (prompt_of_samples G input samples, g)) ∧
  (∀ G input,
     let first := create_training_prompt_formats G input in
     create_training_prompt_formats G (row_after input first) = first).
Proof.
  split; [|split; [|split]].
  - intros rng ? G input g. cbv zeta.
    split; [apply create_generation_of_samples|].
    split; [apply create_generation_state|].
    destruct (create_generation_prompt_formats G input g).1 as [input'|e] eqn:Hfirst;
      [|done].
    apply create_generation_updates_row in Hfirst as (prompt & completion & ->).
    reflexivity.
  - intros rng1 ? rng2 ? G input g1 g2 Hdraws.
    by rewrite !create_generation_of_samples, Hdraws.
  - intros rng ? G input g samples Hnone.
    rewrite (surjective_pairing (create_generation_prompt_formats G input g)).
    rewrite create_generation_of_samples, create_generation_state.
    f_equal; [by apply prompt_of_samples_unused|].
    destruct (decide (TRAIN_TYPE G = "text_kg")) as [Hmode|Hmode]; [|done].
    destruct Hnone as [?|Hle]; [done|]. by apply after_draws_without_graph.
  - intros G input. cbv zeta.
    destruct (create_training_prompt_formats G input) as [input'|e] eqn:Hfirst; [|done].
    apply create_training_updates_row in Hfirst as Hrow. destruct Hrow as (prompt & ->).
    exact Hfirst.
Qed.

(** Two generator states that both draw position 0 for the entry of
    Brigmore Manor, and a call at depth 0. *)
Lemma same_seed_same_prompt_witness :
  let G := notebook "text_kg" 2 registry in
  let input := row [kb_manor] quest_three in
  draws 2 [kb_manor] [0] = draws 2 [kb_manor] [3] ∧
  (create_generation_prompt_formats G input [0]).1 =
  (create_generation_prompt_formats G input [3]).1 ∧
  (0 ≤ 0)%Z ∧
  create_generation_prompt_formats (notebook "text_kg" 0 registry) input [5] =
    (prompt_of_samples (notebook "text_kg" 0 registry) input [], [5]).
Proof.
  cbv zeta. split; [vm_compute; reflexivity|].
  destruct same_seed_same_prompt as (_ & Hdraws & Hnone & _).
  split; [|split; [lia|]].
  - apply (Hdraws (list nat) _ (list nat) _ (notebook "text_kg" 2 registry)
             (row [kb_manor] quest_three) [0] [3]).
    vm_compute. reflexivity.
  - apply (Hnone (list nat) _ (notebook "text_kg" 0 registry)
             (row [kb_manor] quest_three) [5] []).
    right. simpl. lia.
Defined.

(** Generator states that draw differently give different prompts, and
    so do two calls in a row when the generator is not seeded again: the
    second call starts from the state the first one left. *)
Lemma other_seed_other_prompt :
  let G := notebook "text_kg" 2 registry in
  let input := row [kb_manor] quest_three in
  (create_generation_prompt_formats G input [0]).1 ≠
  (create_generation_prompt_formats G input [1]).1 ∧
  (let first := create_generation_prompt_formats G input [0; 1] in
   first.2 = [1] ∧
   (create_generation_prompt_formats G (row_after input first.1) first.2).1 ≠ first.1).
Proof.
  cbv zeta. split; [vm_compute; discriminate|].
  split; [vm_compute; reflexivity | vm_compute; discriminate].
Qed.

(** Claim C8.  A quest with three tasks renders as the claim says: the
    description is skipped, the title is capitalised, and the tasks but
    the last are listed, capitalised, each on a line of its own after one
    space.  A quest whose [tasks] hold a single task should render the
    title and an empty task list; instead [np.char.capitalize] is given
    the empty list and both notebooks raise [TypeError]. *)
Theorem quest_rendering_rejects_short_tasks :
  render_quest quest_three =
    Ok ("Title: The brigmore conspiracy" +:+ nl +:+
        "Tasks: " +:+ nl +:+ " Find x" +:+ nl +:+ " Kill y" +:+ nl) ∧
  render_quest quest_one = Raise TypeError ∧
  create_training_prompt_formats (notebook "no_kg" 2 registry) (row [] quest_one) =
    Raise TypeError ∧
  (create_generation_prompt_formats (notebook "no_kg" 2 registry) (row [] quest_one) [0]).1 =
    Raise TypeError.
Proof. repeat split; vm_compute; reflexivity. Qed.

(** Claim C9, amended.  For a row whose game has no graph in the
    registry, in [text_kg] mode, the inference notebook raises
    [KeyError], a [LookupError], at every positive depth; at a depth of
    zero or less it does not read the registry, its result is the same
    with any registry.  The training notebook raises [KeyError] at every
    depth. *)
Theorem missing_graph_raises_when_looked_up :
  is_LookupError KeyError = true ∧
  (∀ `{!Random rng} G input (g : rng),
     TRAIN_TYPE G = "text_kg" → kg_map G !! ex_game input = None →
     ((KG_DEPTH G > 0)%Z →
        (create_generation_prompt_formats G input g).1 = Raise KeyError) ∧
     ((KG_DEPTH G ≤ 0)%Z →
        ∀ reg, create_generation_prompt_formats G input g =
               create_generation_prompt_formats
                 (notebook (TRAIN_TYPE G) (KG_DEPTH G) reg) input g)) ∧
  (∀ G input,
     TRAIN_TYPE G = "text_kg" → kg_map G !! ex_game input = None →
     create_training_prompt_formats G input = Raise KeyError).
Proof.
  split; [done|]. split.
  - intros rng ? G input g Hkg Hmiss. split.
    + intros Hpos. unfold create_generation_prompt_formats.
      rewrite decide_True by done.
      pose proof (text_kg_generation_unfold G input (plots_of input) g) as Hbg.
      simpl in Hbg. rewrite decide_True, Hmiss in Hbg by done.
      destruct (text_kg_generation G input (plots_of input) g) as [r g'].
      simpl in *. by rewrite Hbg.
    + intros Hle reg. unfold create_generation_prompt_formats.
      by rewrite !text_kg_generation_without_graph by done.
  - intros G input Hkg Hmiss. unfold create_training_prompt_formats.
    rewrite decide_True by done. rewrite text_kg_training_unfold. simpl.
    by rewrite Hmiss.
Qed.

(** The row of Delilah with an empty registry, at depth 2 and at
    depth 0. *)
Lemma missing_graph_raises_when_looked_up_witness :
  let input := row [kb_delilah] quest_three in
  (let G := notebook "text_kg" 2 ∅ in
   TRAIN_TYPE G = "text_kg" ∧ kg_map G !! ex_game input = None ∧ (KG_DEPTH G > 0)%Z ∧
   (create_generation_prompt_formats G input [0]).1 = Raise KeyError ∧
   create_training_prompt_formats G input = Raise KeyError) ∧
  (let G := notebook "text_kg" 0 ∅ in
   TRAIN_TYPE G = "text_kg" ∧ kg_map G !! ex_game input = None ∧ (KG_DEPTH G ≤ 0)%Z ∧
   create_generation_prompt_formats G input [0] =
   create_generation_prompt_formats (notebook "text_kg" 0 registry) input [0]).
Proof.
  cbv zeta. destruct missing_graph_raises_when_looked_up as (_ & Hgen & Htrain).
  split.
  - split; [reflexivity|]. split; [reflexivity|]. split; [reflexivity|]. split.
    + apply (Hgen (list nat) _ (notebook "text_kg" 2 ∅) (row [kb_delilah] quest_three) [0]);
        reflexivity.
    + apply (Htrain (notebook "text_kg" 2 ∅) (row [kb_delilah] quest_three)); reflexivity.
  - split; [reflexivity|]. split; [reflexivity|]. split; [simpl; lia|].
    apply (Hgen (list nat) _ (notebook "text_kg" 0 ∅) (row [kb_delilah] quest_three) [0]);
      [reflexivity | reflexivity | simpl; lia].
Defined.

(** Claim C9 as stated fails at depth 0: with an empty registry the
    inference notebook returns a prompt whose background comes from the
    kb entries alone. *)
Lemma missing_graph_unnoticed_at_depth_zero :
  let G := notebook "text_kg" 0 ∅ in
  let input := row [kb_delilah] [] in
  kg_map G !! ex_game input = None ∧
  ex_text <$> (create_generation_prompt_formats G input [0]).1 =
    Ok (Some ("### Background:" +:+ nl +:+
              "Delilah is a character. Delilah is present in Brigmore Manor. " +:+ nl +:+
              nl +:+ nl +:+
              "### Plots:" +:+ nl +:+
              "Delilah and her coven threaten everyone" +:+ nl +:+
              "Delilah must be stopped" +:+ nl +:+ nl +:+
              "The quest related to the above information is as follows:")).
Proof. cbv zeta. split; vm_compute; reflexivity. Qed.

(** Claim C10.  A quest whose [tasks] field holds exactly one task
    should be rendered with a "Tasks: " line and no task; instead the
    field raises [TypeError], and both prompt functions raise for every
    row with such a field, in every mode. *)
Theorem single_task_quest_raises G input task :
  ("tasks", QList [task]) ∈ ex_quest input →
  (∃ e, create_training_prompt_formats G input = Raise e) ∧
  (∀ `{!Random rng} (g : rng),
     ∃ e, (create_generation_prompt_formats G input g).1 = Raise e) ∧
  (∀ quest_str, quest_field quest_str ("tasks", QList [task]) = Raise TypeError).
Proof.
  intros Hin.
  destruct (render_quest_single_task _ _ Hin "") as [e He].
  split; [|split].
  - unfold create_training_prompt_formats.
    destruct (if decide (TRAIN_TYPE G = "text_kg") then _ else _) as [bg|e'];
      simpl; [|by exists e'].
    unfold render_quest. rewrite He. by exists e.
  - intros rng ? g. unfold create_generation_prompt_formats.
    destruct (if decide (TRAIN_TYPE G = "text_kg") then _ else _) as [[bg|e'] g'];
      simpl; [|by exists e'].
    unfold render_quest. rewrite He. by exists e.
  - intros quest_str. apply quest_field_single_task.
Qed.

(** The quest with the single task "report". *)
Lemma single_task_quest_raises_witness :
  ("tasks", QList ["report"]) ∈ quest_one ∧
  ∃ e, create_training_prompt_formats (notebook "text_kg" 2 registry) (row [] quest_one) =
       Raise e.
Proof.
  assert (("tasks", QList ["report"]) ∈ quest_one) as Hin.
  { unfold quest_one. apply elem_of_cons. right. apply elem_of_cons. by left. }
  split; [exact Hin|].
  apply (single_task_quest_raises (notebook "text_kg" 2 registry) (row [] quest_one)
           "report" Hin).
Defined.

(** ** Further properties of the notebooks *)

Lemma last_ascii_app (a b : string) : b ≠ "" → last_ascii (a +:+ b) = last_ascii b.
Proof.
  intros Hb. induction a as [|c a IH]; [done|].
  rewrite append_cons. simpl. rewrite IH.
  destruct (a +:+ b) eqn:Hab; [|done].
  destruct a, b; done.
Qed.

Lemma bind_Ok_inv {A B} (m : result A) (f : A → result B) (b : B) :
  m ≫= f = Ok b → ∃ a, m = Ok a ∧ f a = Ok b.
Proof. destruct m as [a|e]; [|done]. intros H. by exists a. Qed.

Lemma text_kg_generation_headed `{!Random rng} G input plots (g : rng) st :
  (text_kg_generation G input plots g).1 = Ok st →
  ∃ body, background st = BACKGROUND +:+ nl +:+ body.
Proof.
  rewrite text_kg_generation_unfold. simpl.
  intros (st0 & _ & ->)%fmap_Ok_inv. by exists (background st0).
Qed.

Lemma text_kg_training_headed G input plots st :
  text_kg_training G input plots = Ok st →
  ∃ body, background st = BACKGROUND +:+ nl +:+ body.
Proof.
  rewrite text_kg_training_unfold. simpl.
  intros (st0 & _ & ->)%fmap_Ok_inv. by exists (background st0).
Qed.

(** Every prompt of the inference notebook ends with the instruction
    line. *)
Lemma create_generation_ends_with_blurb `{!Random rng} G input (g : rng) row :
  (create_generation_prompt_formats G input g).1 = Ok row →
  ∃ head, ex_text row = Some (head +:+ blank +:+ INTRO_BLURB).
Proof.
  destruct (decide (TRAIN_TYPE G = "text_kg")) as [Hmode|Hmode].
  - rewrite create_generation_text_kg by done.
    intros (st & _ & (quest_str & _ & [= <-])%bind_Ok_inv)%bind_Ok_inv.
    exists (background st +:+ blank +:+ plots_of input). simpl.
    by rewrite !append_assoc.
  - rewrite create_generation_plain by done. simpl.
    intros (quest_str & _ & ->)%fmap_Ok_inv. by exists (plots_of input).
Qed.

(** Every prompt of the training notebook ends with the end key. *)
Lemma create_training_ends_with_end G input row :
  create_training_prompt_formats G input = Ok row →
  ∃ head, ex_text row = Some (head +:+ blank +:+ END_KEY).
Proof.
  destruct (decide (TRAIN_TYPE G = "text_kg")) as [Hmode|Hmode].
  - rewrite create_training_text_kg by done.
    intros (st & _ & (quest_str & _ & [= <-])%bind_Ok_inv)%bind_Ok_inv.
    exists (background st +:+ blank +:+ plots_of input +:+ blank +:+ INTRO_BLURB +:+ blank +:+
            QUEST +:+ nl +:+ quest_str). simpl.
    by rewrite !append_assoc.
  - rewrite create_training_plain by done.
    intros (quest_str & _ & ->)%fmap_Ok_inv.
    exists (plots_of input +:+ blank +:+ INTRO_BLURB +:+ blank +:+ QUEST +:+ nl +:+ quest_str).
    simpl. by rewrite !append_assoc.
Qed.

(** Property X1.  In every mode other than "text_kg" the inference notebook
    composes no background: the random source is left as it was, and the
    prompt and the completion depend on the plots and the quest of the row
    only, not on its kb entries, its game, the depth or the registry of
    graphs.  A prompt that is returned is the plots section, a blank line
    and the introduction of the quest. *)
Theorem other_modes_ignore_the_graph `{!Random rng} G G' input input' (g : rng) :
  TRAIN_TYPE G ≠ "text_kg" → TRAIN_TYPE G' ≠ "text_kg" →
  ex_plots input = ex_plots input' → ex_quest input = ex_quest input' →
  let r := create_generation_prompt_formats G input g in
  let r' := create_generation_prompt_formats G' input' g in
  r.2 = g ∧
  ex_text <$> r.1 = ex_text <$> r'.1 ∧
  ex_output <$> r.1 = ex_output <$> r'.1 ∧
  ∀ row, r.1 = Ok row →
    ex_text row = Some (PLOTS_KEY +:+ nl +:+ join nl (ex_plots input) +:+ blank +:+ INTRO_BLURB).
Proof.
  intros Hmode Hmode' Hplots Hquest. cbv zeta.
  rewrite !create_generation_plain by done. unfold plots_of.
  rewrite <- Hplots, <- Hquest. cbn [fst snd].
  split; [done|].
  destruct (render_quest (ex_quest input)) as [quest_str|e]; cbn; [|done].
  repeat split. intros row [= <-]. cbn. by rewrite !append_assoc.
Qed.

Lemma other_modes_ignore_the_graph_witness :
  let G := notebook "no_kg" 2 registry in
  let G' := notebook "kg_as_tree" 0 ∅ in
  let input := row [kb_manor] quest_three in
  let input' := row [] quest_three in
  TRAIN_TYPE G ≠ "text_kg" ∧ TRAIN_TYPE G' ≠ "text_kg" ∧
  ex_text <$> (create_generation_prompt_formats G input [7]).1 =
  ex_text <$> (create_generation_prompt_formats G' input' [7]).1.
Proof.
  cbv zeta. split; [discriminate|]. split; [discriminate|].
  apply (other_modes_ignore_the_graph (notebook "no_kg" 2 registry)
           (notebook "kg_as_tree" 0 ∅) (row [kb_manor] quest_three) (row [] quest_three) [7]);
    [discriminate | discriminate | reflexivity | reflexivity].
Defined.

(** Property X2.  In every mode other than "text_kg" the two notebooks agree:
    when the inference notebook returns a prompt and a completion for a
    row, the text of the training notebook is that prompt, a blank line
    and that completion; when it raises, the training notebook raises the
    same exception. *)
Theorem training_prompt_is_prompt_and_completion `{!Random rng} G input (g : rng) :
  TRAIN_TYPE G ≠ "text_kg" →
  match (create_generation_prompt_formats G input g).1 with
  | Ok row =>
    ∃ prompt completion,
      ex_text row = Some prompt ∧ ex_output row = Some completion ∧
      ex_text <$> create_training_prompt_formats G input =
        Ok (Some (prompt +:+ nl +:+ nl +:+ completion))
  | Raise e => create_training_prompt_formats G input = Raise e
  end.
Proof.
  intros Hmode.
  rewrite create_generation_plain, create_training_plain by done. cbn [fst].
  destruct (render_quest (ex_quest input)) as [quest_str|e]; cbn; [|done].
  eexists _, _. split; [done|]. split; [done|].
  unfold completion_of, blank. by rewrite !append_assoc.
Qed.

Lemma training_prompt_is_prompt_and_completion_witness :
  let G := notebook "no_kg" 2 registry in
  let input := row [kb_manor] quest_three in
  TRAIN_TYPE G ≠ "text_kg" ∧
  ∃ prompt completion,
    ex_text <$> (create_generation_prompt_formats G input [0]).1 = Ok (Some prompt) ∧
    ex_output <$> (create_generation_prompt_formats G input [0]).1 = Ok (Some completion) ∧
    ex_text <$> create_training_prompt_formats G input =
      Ok (Some (prompt +:+ nl +:+ nl +:+ completion)).
Proof.
  cbv zeta. split; [discriminate|].
  pose proof (training_prompt_is_prompt_and_completion (notebook "no_kg" 2 registry)
                (row [kb_manor] quest_three) [0]) as H.
  destruct (create_generation_prompt_formats (notebook "no_kg" 2 registry)
              (row [kb_manor] quest_three) [0]).1 as [r|e] eqn:Hrow.
  - destruct H as (prompt & completion & Ht & Ho & Htrain); [discriminate|].
    exists prompt, completion. cbn. by rewrite Ht, Ho.
  - vm_compute in Hrow. discriminate.
Defined.

(** Property X3.  In "text_kg" mode a returned prompt has its sections in
    one order: the background header and its body, a blank line, the plots
    section, a blank line and the introduction of the quest; the training
    notebook goes on with a blank line, the quest section with the rendered
    quest, a blank line and the end marker. *)
Theorem text_kg_prompt_sections :
  (∀ `{!Random rng} G input (g : rng) row,
     TRAIN_TYPE G = "text_kg" →
     (create_generation_prompt_formats G input g).1 = Ok row →
     ∃ body,
       ex_text row =
         Some (BACKGROUND +:+ nl +:+ body +:+ blank +:+
               PLOTS_KEY +:+ nl +:+ join nl (ex_plots input) +:+ blank +:+ INTRO_BLURB)) ∧
  (∀ G input row,
     TRAIN_TYPE G = "text_kg" →
     create_training_prompt_formats G input = Ok row →
     ∃ body quest_str,
       render_quest (ex_quest input) = Ok quest_str ∧
       ex_text row =
         Some (BACKGROUND +:+ nl +:+ body +:+ blank +:+
               PLOTS_KEY +:+ nl +:+ join nl (ex_plots input) +:+ blank +:+ INTRO_BLURB +:+ blank +:+
               QUEST +:+ nl +:+ quest_str +:+ blank +:+ END_KEY)).
Proof.
  split.
  - intros rng ? G input g row Hmode.
    rewrite create_generation_text_kg by done.
    intros (st & Hst & (quest_str & _ & [= <-])%bind_Ok_inv)%bind_Ok_inv.
    apply text_kg_generation_headed in Hst as [body Hbody].
    exists body. cbn. rewrite Hbody. unfold plots_of. by rewrite !append_assoc.
  - intros G input row Hmode.
    rewrite create_training_text_kg by done.
    intros (st & Hst & (quest_str & Hq & [= <-])%bind_Ok_inv)%bind_Ok_inv.
    apply text_kg_training_headed in Hst as [body Hbody].
    exists body, quest_str. split; [done|].
    cbn. rewrite Hbody. unfold plots_of. by rewrite !append_assoc.
Qed.

Lemma text_kg_prompt_sections_witness :
  let G := notebook "text_kg" 2 registry in
  let input := row [kb_delilah] quest_three in
  let first := (create_generation_prompt_formats G input [0]).1 in
  TRAIN_TYPE G = "text_kg" ∧ first = Ok (row_after input first) ∧
  ∃ body,
    ex_text (row_after input first) =
      Some (BACKGROUND +:+ nl +:+ body +:+ blank +:+
            PLOTS_KEY +:+ nl +:+ join nl (ex_plots input) +:+ blank +:+ INTRO_BLURB).
Proof.
  cbv zeta. split; [reflexivity|]. split; [vm_compute; reflexivity|].
  destruct text_kg_prompt_sections as [Hgen _].
  apply (Hgen (list nat) _ (notebook "text_kg" 2 registry) (row [kb_delilah] quest_three) [0]);
    [reflexivity | vm_compute; reflexivity].
Defined.

(** Property X4.  Whenever the inference notebook returns a row, in any
    mode, its completion is the quest section with the rendered quest of
    the row, a blank line and the end marker: the quest is in the
    completion, never in the prompt's graph text. *)
Theorem completion_depends_on_the_quest `{!Random rng} G input (g : rng) row :
  (create_generation_prompt_formats G input g).1 = Ok row →
  ∃ quest_str,
    render_quest (ex_quest input) = Ok quest_str ∧
    ex_output row = Some (QUEST +:+ nl +:+ quest_str +:+ blank +:+ END_KEY).
Proof.
  destruct (decide (TRAIN_TYPE G = "text_kg")) as [Hmode|Hmode].
  - rewrite create_generation_text_kg by done.
    intros (st & _ & (quest_str & Hq & [= <-])%bind_Ok_inv)%bind_Ok_inv.
    exists quest_str. split; [done|]. cbn. unfold completion_of. by rewrite !append_assoc.
  - rewrite create_generation_plain by done. cbn [fst].
    intros (quest_str & Hq & ->)%fmap_Ok_inv.
    exists quest_str. split; [done|]. cbn. unfold completion_of. by rewrite !append_assoc.
Qed.

Lemma completion_depends_on_the_quest_witness :
  let G := notebook "text_kg" 2 registry in
  let input := row [kb_delilah] quest_three in
  let first := (create_generation_prompt_formats G input [0]).1 in
  first = Ok (row_after input first) ∧
  ∃ quest_str,
    render_quest quest_three = Ok quest_str ∧
    ex_output (row_after input first) = Some (QUEST +:+ nl +:+ quest_str +:+ blank +:+ END_KEY).
Proof.
  cbv zeta. split; [vm_compute; reflexivity|].
  apply (completion_depends_on_the_quest (notebook "text_kg" 2 registry)
           (row [kb_delilah] quest_three) [0]).
  vm_compute. reflexivity.
Defined.

(** Property X5.  The prompt [create_input_prompt] builds by hand is never
    a prompt of the dataset: it ends with a line feed after the quest
    header, where the prompts of the inference notebook end with the
    introduction of the quest and the texts of the training notebook with
    the end marker. *)
Theorem hand_made_prompt_differs :
  (∀ `{!Random rng} G input (g : rng) row background_info plots,
     (create_generation_prompt_formats G input g).1 = Ok row →
     ex_text row ≠ Some (create_input_prompt background_info plots)) ∧
  (∀ G input row background_info plots,
     create_training_prompt_formats G input = Ok row →
     ex_text row ≠ Some (create_input_prompt background_info plots)).
Proof.
  assert (∀ background_info plots,
            last_ascii (create_input_prompt background_info plots) = last_ascii nl) as Hlast.
  { intros. unfold create_input_prompt.
    rewrite <- (append_assoc _ nl). rewrite <- (append_assoc _ "### Quest:").
    by rewrite (last_ascii_app _ nl). }
  split.
  - intros rng ? G input g row background_info plots Hrow.
    apply create_generation_ends_with_blurb in Hrow as [head ->].
    intros [= Heq]. apply (f_equal last_ascii) in Heq.
    rewrite Hlast, <- append_assoc, last_ascii_app in Heq by discriminate.
    vm_compute in Heq. discriminate.
  - intros G input row background_info plots Hrow.
    apply create_training_ends_with_end in Hrow as [head ->].
    intros [= Heq]. apply (f_equal last_ascii) in Heq.
    rewrite Hlast, <- append_assoc, last_ascii_app in Heq by discriminate.
    vm_compute in Heq. discriminate.
Qed.

Lemma hand_made_prompt_differs_witness :
  let G := notebook "no_kg" 2 registry in
  let input := row [] quest_three in
  let first := (create_generation_prompt_formats G input [0]).1 in
  first = Ok (row_after input first) ∧
  ex_text (row_after input first) ≠ Some (create_input_prompt [] (ex_plots input)).
Proof.
  cbv zeta. split; [vm_compute; reflexivity|].
  destruct hand_made_prompt_differs as [Hgen _].
  apply (Hgen (list nat) _ (notebook "no_kg" 2 registry) (row [] quest_three) [0]).
  vm_compute. reflexivity.
Defined.

(** ** Depth one *)

Lemma draws_depth_one `{!Random rng, !RandomSpec rng} kbs :
  ∀ g : rng, draws 1 kbs g = (λ _, []) <$> kbs.
Proof.
  induction kbs as [|kb kbs IH]; intros g; [done|].
  rewrite draws_cons by lia. cbv zeta. rewrite IH, fmap_cons. f_equal.
  destruct (random_sample_spec g (kb_relations kb) (sample_size 1 (kb_relations kb)))
    as [Hlen _]; [apply sample_size_le|].
  unfold sample_size in Hlen at 2. simpl in Hlen.
  by apply nil_length_inv.
Qed.

Lemma create_generation_same_draws `{!Random rng1, !Random rng2} G input
    (g1 : rng1) (g2 : rng2) :
  draws (KG_DEPTH G) (ex_kbs input) g1 = draws (KG_DEPTH G) (ex_kbs input) g2 →
  (create_generation_prompt_formats G input g1).1 =
  (create_generation_prompt_formats G input g2).1.
Proof.
  intros Hdraws.
  destruct (decide (TRAIN_TYPE G = "text_kg")) as [Hmode|Hmode].
  - rewrite !create_generation_text_kg by done.
    by rewrite (text_kg_generation_draws G input (plots_of input) g1 g2 Hdraws).
  - by rewrite !create_generation_plain by done.
Qed.

(** Property X6.  At [KG_DEPTH = 1] the kb loop of the inference notebook
    samples [min(1 - 1, len(relations)) = 0] relations of every entry: the
    background gets the introduction and the description of each entry and
    no relation, no pair is recorded as completed, and the returned row is
    the same for every random source. *)
Theorem depth_one_draws_nothing
    `{!Random rng1, !RandomSpec rng1, !Random rng2, !RandomSpec rng2}
    G input (g1 : rng1) (g2 : rng2) :
  KG_DEPTH G = 1%Z →
  (foldl (kb_step_generation 1) (init_cstate, g1) (ex_kbs input)).1 =
    after_kbs true ". " init_cstate (ex_kbs input) ((λ _, []) <$> ex_kbs input) ∧
  completed_rels (foldl (kb_step_generation 1) (init_cstate, g1) (ex_kbs input)).1 = [] ∧
  (create_generation_prompt_formats G input g1).1 =
  (create_generation_prompt_formats G input g2).1.
Proof.
  intros Hdepth.
  assert ((foldl (kb_step_generation 1) (init_cstate, g1) (ex_kbs input)).1 =
          after_kbs true ". " init_cstate (ex_kbs input) ((λ _, []) <$> ex_kbs input)) as Hloop.
  { rewrite kb_loop_generation. unfold emitted_relations.
    rewrite decide_True by lia. rewrite draws_depth_one.
    by rewrite bool_decide_eq_true_2 by lia. }
  split; [done|]. split.
  - rewrite Hloop. unfold after_kbs. cbn [completed_rels].
    generalize (ex_kbs input). intros kbs. induction kbs as [|kb kbs IH]; [done|].
    by rewrite fmap_cons.
  - apply create_generation_same_draws. by rewrite Hdepth, !draws_depth_one.
Qed.

Lemma depth_one_draws_nothing_witness :
  let G := notebook "text_kg" 1 registry in
  let input := row [kb_manor] quest_three in
  KG_DEPTH G = 1%Z ∧
  (create_generation_prompt_formats G input [0]).1 =
  (create_generation_prompt_formats G input [1]).1.
Proof.
  cbv zeta. split; [reflexivity|].
  apply (depth_one_draws_nothing (rng1 := list nat) (rng2 := list nat)
           (notebook "text_kg" 1 registry) (row [kb_manor] quest_three) [0] [1]).
  reflexivity.
Defined.

(** ** Quest fields that raise *)

Lemma quest_field_raises quest_str kv :
  ¬ renderable kv →
  quest_field quest_str kv =
    Raise (if decide (kv.1 = "tasks") then TypeError else AttributeError).
Proof.
  destruct kv as [k v]. unfold renderable, quest_field. cbn [fst snd]. intros Hbad.
  destruct (decide (k = "description")) as [->|Hd]; [tauto|].
  destruct (decide (k = "tasks")) as [->|Ht].
  - destruct v as [s|l]; [done|].
    destruct (removelast l) as [|x rest] eqn:Hl; [done|].
    exfalso. apply Hbad. right. left. split; [done|]. exists l. split; [done|].
    destruct l as [|a [|b l]]; simpl in *; [done|done|lia].
  - destruct v as [s|l]; [|done].
    exfalso. apply Hbad. right. right. eauto.
Qed.

Lemma renderable_dec kv : renderable kv ∨ ¬ renderable kv.
Proof.
  destruct kv as [k v]. unfold renderable. cbn [fst snd].
  destruct (decide (k = "description")); [tauto|].
  destruct (decide (k = "tasks")) as [->|].
  - destruct v as [s|l].
    + right. intros [?|[(_ & l & ? & _)|(? & _)]]; done.
    + destruct (decide (2 ≤ length l)).
      * left. right. left. eauto.
      * right. intros [?|[(_ & l' & [= <-] & ?)|(? & _)]]; done.
  - destruct v as [s|l].
    + left. right. right. eauto.
    + right. intros [?|[(? & _)|(_ & s & ?)]]; done.
Qed.

Lemma for_each_quest_renderable quest :
  ∀ acc quest_str, for_each quest_field quest acc = Ok quest_str → Forall renderable quest.
Proof.
  induction quest as [|kv quest IH]; intros acc quest_str Hrun; [constructor|].
  simpl in Hrun. destruct (renderable_dec kv) as [Hkv|Hkv].
  - constructor; [done|]. rewrite quest_field_renderable in Hrun by done.
    by eapply IH.
  - by rewrite quest_field_raises in Hrun by done.
Qed.

Lemma for_each_quest_first_bad before bad after :
  Forall renderable before → ¬ renderable bad →
  ∀ acc, for_each quest_field (before ++ bad :: after) acc =
         Raise (if decide (bad.1 = "tasks") then TypeError else AttributeError).
Proof.
  intros Hgood Hbad.
  induction Hgood as [|kv before Hkv Hgood IH]; intros acc; simpl.
  - rewrite quest_field_raises by done. reflexivity.
  - rewrite quest_field_renderable by done. apply IH.
Qed.

Lemma for_each_step {T A} (body : T → A → result T) (x : A) (xs : list A) (s : T) :
  for_each body (x :: xs) s = body s x ≫= for_each body xs.
Proof. reflexivity. Qed.

Lemma for_each_quest_skips_descriptions quest :
  ∀ acc, for_each quest_field (filter (λ kv, kv.1 ≠ "description") quest) acc =
         for_each quest_field quest acc.
Proof.
  induction quest as [|[k v] quest IH]; intros acc; [done|].
  destruct (decide (k = "description")) as [->|Hd].
  - rewrite filter_cons_False by (cbn; tauto). rewrite IH. reflexivity.
  - rewrite filter_cons_True by done. rewrite !for_each_step.
    destruct (quest_field acc (k, v)) as [acc'|e]; [apply IH | reflexivity].
Qed.

(** Property X7.  The quest loop returns exactly when every field of the
    quest is renderable (a description, a [tasks] list with something left
    once its last element is dropped, or a string), and then the quest
    text is the concatenation of the texts of the fields in their order. *)
Theorem render_quest_succeeds_iff_renderable quest quest_str :
  render_quest quest = Ok quest_str ↔
  Forall renderable quest ∧ quest_str = cat (field_text <$> quest).
Proof.
  split.
  - intros Hrun.
    assert (Forall renderable quest) as Hall
      by (by eapply for_each_quest_renderable).
    split; [done|]. rewrite render_quest_renderable in Hrun by done. by injection Hrun.
  - intros [Hall ->]. by apply render_quest_renderable.
Qed.

Lemma render_quest_succeeds_iff_renderable_witness :
  render_quest quest_three = Ok (cat (field_text <$> quest_three)) ∧
  Forall renderable quest_three.
Proof.
  split; [vm_compute; reflexivity|].
  apply (render_quest_succeeds_iff_renderable quest_three (cat (field_text <$> quest_three))).
  vm_compute. reflexivity.
Defined.

(** Property X8.  The quest loop stops at the first field that is not
    renderable, whatever follows it: with [TypeError] when the field is
    [tasks], with [AttributeError] otherwise. *)
Theorem render_quest_first_bad_field before bad after :
  Forall renderable before → ¬ renderable bad →
  render_quest (before ++ bad :: after) =
    Raise (if decide (bad.1 = "tasks") then TypeError else AttributeError).
Proof. intros Hgood Hbad. by apply for_each_quest_first_bad. Qed.

Lemma render_quest_first_bad_field_witness :
  render_quest [("title", QStr "a watchful eye"); ("rewards", QList ["gold"; "fame"]);
                ("tasks", QList ["report"])] = Raise AttributeError.
Proof.
  apply (render_quest_first_bad_field [("title", QStr "a watchful eye")]
           ("rewards", QList ["gold"; "fame"]) [("tasks", QList ["report"])]).
  - constructor; [|constructor]. right. right. split; [discriminate|]. by eexists.
  - intros [H|[(H & _)|(_ & s & H)]]; discriminate.
Defined.

(** Property X9.  The quest loop ignores the [description] fields: removing
    them from a quest changes neither the rendered text nor the exception
    raised. *)
Theorem render_quest_skips_descriptions quest :
  render_quest (filter (λ kv, kv.1 ≠ "description") quest) = render_quest quest.
Proof. apply for_each_quest_skips_descriptions. Qed.

(** ** The graph loop only appends *)

Lemma background_extended_refl st : background_extended st st.
Proof. exists "". by rewrite append_empty_r. Qed.

Lemma background_extended_trans st1 st2 st3 :
  background_extended st1 st2 → background_extended st2 st3 → background_extended st1 st3.
Proof.
  intros [r1 E1] [r2 E2]. exists (r1 +:+ r2). by rewrite E2, E1, append_assoc.
Qed.

Lemma introduce_background_extended who ent e_type e_desc st :
  background_extended st (introduce who ent e_type e_desc st).
Proof.
  destruct (decide (ent ∈ completed_nodes st)) as [Hin|Hin].
  - rewrite introduce_old by done. apply background_extended_refl.
  - rewrite introduce_new by done. eexists. reflexivity.
Qed.

Lemma edge_step_generation_background kg st e st' :
  edge_step_generation kg st e = Ok st' → background_extended st st'.
Proof.
  destruct e as [ent1 ent2]. intros H. open_edge_step H.
  - apply background_extended_refl.
  - eapply background_extended_trans; [apply introduce_background_extended|].
    eapply background_extended_trans; [apply (introduce_background_extended ent2 ent2)|].
    rewrite phrase_edge_sentence. cbn. eexists. cbn. by rewrite append_assoc.
Qed.

Lemma edge_step_training_background kg st e st' :
  edge_step_training kg st e = Ok st' → background_extended st st'.
Proof.
  destruct e as [ent1 ent2]. intros H. open_edge_step H.
  - apply background_extended_refl.
  - eapply background_extended_trans; [apply introduce_background_extended|].
    eapply background_extended_trans; [apply (introduce_background_extended ent1 ent2)|].
    rewrite phrase_edge_sentence. cbn. eexists. cbn. by rewrite append_assoc.
Qed.

Lemma graph_loop_generation_background kg depth0 plots st st' :
  for_each (node_step_generation kg depth0 plots) (kg_nodes kg) st = Ok st' →
  background_extended st st'.
Proof.
  apply (for_each_invariant background_extended);
    [apply background_extended_refl | apply background_extended_trans|].
  intros s node s'. unfold node_step_generation. destruct (str_in _ _).
  - apply (for_each_invariant background_extended);
      [apply background_extended_refl | apply background_extended_trans
      | apply edge_step_generation_background].
  - intros [= <-]. apply background_extended_refl.
Qed.

Lemma graph_loop_training_background kg plots st st' :
  for_each (node_step_training kg plots) (kg_nodes kg) st = Ok st' →
  background_extended st st'.
Proof.
  apply (for_each_invariant background_extended);
    [apply background_extended_refl | apply background_extended_trans|].
  intros s node s'. unfold node_step_training. destruct (str_in _ _).
  - apply (for_each_invariant background_extended);
      [apply background_extended_refl | apply background_extended_trans
      | apply edge_step_training_background].
  - intros [= <-]. apply background_extended_refl.
Qed.

(** Property X10.  In both notebooks the graph loop only appends: a
    background that is returned starts with the header and the blocks of
    the kb entries, in the order of the entries, and the text of the graph
    loop follows them. *)
Theorem kb_blocks_lead_the_background :
  (∀ `{!Random rng} G input plots (g : rng) st',
     (text_kg_generation G input plots g).1 = Ok st' →
     ∃ rest,
       background st' =
         BACKGROUND +:+ nl +:+
         kb_blocks (bool_decide (KG_DEPTH G > 0)%Z) ". " (ex_kbs input)
           (emitted_relations (KG_DEPTH G) (ex_kbs input) g) +:+ rest) ∧
  (∀ G input plots st',
     text_kg_training G input plots = Ok st' →
     ∃ rest,
       background st' =
         BACKGROUND +:+ nl +:+
         kb_blocks true "." (ex_kbs input) (kb_relations <$> ex_kbs input) +:+ rest).
Proof.
  split.
  - intros rng ? G input plots g st'. rewrite text_kg_generation_unfold. cbv zeta.
    intros (st0 & Hrun & ->)%fmap_Ok_inv.
    destruct (decide (KG_DEPTH G > 0)%Z).
    + destruct (kg_map G !! ex_game input) as [kg|]; [|done]. cbn in Hrun.
      apply graph_loop_generation_background in Hrun as [rest Hrest].
      exists rest. cbn [background headed]. by rewrite Hrest.
    + injection Hrun as <-. exists "". cbn [background headed after_kbs].
      by rewrite append_empty_r.
  - intros G input plots st'. rewrite text_kg_training_unfold. cbv zeta.
    intros (st0 & Hrun & ->)%fmap_Ok_inv.
    destruct (kg_map G !! ex_game input) as [kg|]; [|done]. cbn in Hrun.
    apply graph_loop_training_background in Hrun as [rest Hrest].
    exists rest. cbn [background headed]. by rewrite Hrest.
Qed.

Lemma kb_blocks_lead_the_background_witness :
  let G := notebook "text_kg" 2 registry in
  let input := row [kb_delilah] [] in
  let st' := returned (text_kg_generation G input (plots_of input) [0]).1 in
  (text_kg_generation G input (plots_of input) [0]).1 = Ok st' ∧
  ∃ rest,
    background st' =
      BACKGROUND +:+ nl +:+
      ("Delilah is a character. Delilah is the leader of the Brigmore Witches. " +:+
       "Delilah is present in Brigmore Manor. " +:+ nl) +:+ rest.
Proof.
  cbv zeta. split; [vm_compute; reflexivity|].
  destruct kb_blocks_lead_the_background as [Hgen _].
  destruct (Hgen (list nat) _ (notebook "text_kg" 2 registry) (row [kb_delilah] [])
              (plots_of (row [kb_delilah] [])) [0]
              (returned (text_kg_generation (notebook "text_kg" 2 registry)
                 (row [kb_delilah] []) (plots_of (row [kb_delilah] [])) [0]).1))
    as [rest Hrest]; [vm_compute; reflexivity|].
  exists rest. rewrite Hrest. vm_compute. reflexivity.
Defined.

(** ** Edges whose data are missing *)

Lemma getitem_cases {A} (o : option A) :
  (∃ a, getitem o = Ok a) ∨ getitem o = Raise KeyError.
Proof. destruct o; [left; by eexists | by right]. Qed.

Lemma node_attr_cases kg n key :
  (∃ v, node_attr kg n key = Ok v) ∨ node_attr kg n key = Raise KeyError.
Proof.
  unfold node_attr. destruct (assoc n (kg_nodes kg)) as [a|]; [|by right].
  apply getitem_cases.
Qed.

Lemma edge_attr_cases kg u v key :
  (∃ x, edge_attr kg u v key = Ok x) ∨ edge_attr kg u v key = Raise KeyError.
Proof.
  unfold edge_attr. destruct (assoc u (kg_adj kg)) as [nbrs|]; [|by right].
  cbn. destruct (assoc v nbrs) as [a|]; [|by right]. apply getitem_cases.
Qed.

(** Property X11.  An edge of the walk whose pair is already completed, in
    either direction, is skipped and leaves the state as it was.  An edge
    that is not completed and lacks the type or the description of an end
    node, or the label of the edge, raises [KeyError] in both notebooks. *)
Theorem edge_without_data_raises kg st ent1 ent2 :
  (described st ent1 ent2 →
     edge_step_generation kg st (ent1, ent2) = Ok st ∧
     edge_step_training kg st (ent1, ent2) = Ok st) ∧
  (¬ described st ent1 ent2 →
     (∀ e1_type e1_desc e2_type e2_desc rel,
        ¬ edge_data_ok kg ent1 ent2 e1_type e1_desc e2_type e2_desc rel) →
     edge_step_generation kg st (ent1, ent2) = Raise KeyError ∧
     edge_step_training kg st (ent1, ent2) = Raise KeyError).
Proof.
  split.
  - intros Hseen. unfold edge_step_generation, edge_step_training.
    by rewrite !decide_True.
  - intros Hnew Hnone. unfold edge_step_generation, edge_step_training.
    rewrite !decide_False by done.
    destruct (node_attr_cases kg ent1 "type") as [[t1 H1]|H1];
      rewrite H1; [|split; reflexivity].
    destruct (node_attr_cases kg ent1 "description") as [[d1 H2]|H2];
      rewrite H2; [|split; reflexivity].
    destruct (node_attr_cases kg ent2 "type") as [[t2 H3]|H3];
      rewrite H3; [|split; reflexivity].
    destruct (node_attr_cases kg ent2 "description") as [[d2 H4]|H4];
      rewrite H4; [|split; reflexivity].
    destruct (edge_attr_cases kg ent1 ent2 "label") as [[rel H5]|H5];
      [|cbn; rewrite H5; split; reflexivity].
    by destruct (Hnone t1 d1 t2 d2 rel).
Qed.

Lemma edge_without_data_raises_witness :
  edge_step_generation kg_unlabelled init_cstate ("Delilah", "Brigmore Manor") =
    Raise KeyError ∧
  edge_step_generation kg_unlabelled
    {| background := ""; completed_rels := [("Brigmore Manor", "Delilah")];
       completed_nodes := [] |} ("Delilah", "Brigmore Manor") =
    Ok {| background := ""; completed_rels := [("Brigmore Manor", "Delilah")];
          completed_nodes := [] |}.
Proof.
  split.
  - apply (edge_without_data_raises kg_unlabelled init_cstate "Delilah" "Brigmore Manor").
    + intros [H|H]; by apply elem_of_nil in H.
    + intros t1 d1 t2 d2 rel (_ & _ & _ & _ & H). vm_compute in H. discriminate.
  - apply (edge_without_data_raises kg_unlabelled).
    right. apply list_elem_of_here.
Defined.

(** ** Names that always match *)

Lemma lower_app (a b : string) : lower (a +:+ b) = lower a +:+ lower b.
Proof. induction a as [|c a IH]; [done|]. rewrite append_cons. simpl. by rewrite IH. Qed.

Lemma prefix_app (needle a b : string) :
  String.prefix needle a = true → String.prefix needle (a +:+ b) = true.
Proof.
  revert a. induction needle as [|c needle IH]; intros a.
  { intros _. by destruct (a +:+ b). }
  destruct a as [|c' a]; [done|]. rewrite append_cons. simpl.
  destruct (ascii_dec c c'); [apply IH | done].
Qed.

Lemma str_in_cons (needle : string) (c : ascii) (hay : string) :
  str_in needle (String c hay) = String.prefix needle (String c hay) || str_in needle hay.
Proof. reflexivity. Qed.

Lemma str_in_app (needle a b : string) :
  str_in needle a = true → str_in needle (a +:+ b) = true.
Proof.
  induction a as [|c a IH]; intros H.
  - destruct needle; [|done]. by destruct b.
  - rewrite str_in_cons in H. apply orb_true_iff in H as [Hp|Hin].
    + pose proof (prefix_app _ _ b Hp) as Hp'. rewrite append_cons in Hp'.
      by rewrite append_cons, str_in_cons, Hp'.
    + rewrite append_cons, str_in_cons, (IH Hin). apply orb_true_r.
Qed.

(** Property X12.  The plots text the node loop searches includes the
    header of the plots section: a node whose lower-cased name occurs in
    "### plots:" is walked for every row, whatever its plots, in both
    notebooks. *)
Theorem header_names_always_match kg depth0 input st name (data : attrs) :
  str_in (lower name) "### plots:" = true →
  node_step_generation kg depth0 (plots_of input) st (name, data) =
    for_each (edge_step_generation kg) (dfs_edges kg name (Some (Z.to_nat depth0))) st ∧
  node_step_training kg (plots_of input) st (name, data) =
    for_each (edge_step_training kg) (dfs_edges kg name None) st.
Proof.
  intros Hmatch.
  assert (str_in (lower name) (lower (plots_of input)) = true) as Hin.
  { unfold plots_of. rewrite lower_app. by apply str_in_app. }
  unfold node_step_generation, node_step_training. cbn [fst]. by rewrite Hin.
Qed.

Lemma header_names_always_match_witness :
  str_in (lower "Plots") "### plots:" = true ∧
  node_step_generation kg_isles 2 (plots_of (row [] [])) init_cstate ("Plots", ∅) =
    for_each (edge_step_generation kg_isles) (dfs_edges kg_isles "Plots" (Some 2)) init_cstate.
Proof.
  split; [vm_compute; reflexivity|].
  apply (header_names_always_match kg_isles 2 (row [] []) init_cstate "Plots" ∅).
  vm_compute. reflexivity.
Defined.

(** Property X13.  When the game of the row has a graph in the registry,
    every node of the graph has a type and a description, every edge a
    label and an end node of the graph, and every field of the quest is
    renderable, both notebooks return a row, in every mode, at every depth
    and for every random source. *)
Theorem complete_graph_gives_a_prompt `{!Random rng} G input (g : rng) kg :
  kg_map G !! ex_game input = Some kg → kg_complete kg →
  Forall renderable (ex_quest input) →
  (∃ row, (create_generation_prompt_formats G input g).1 = Ok row) ∧
  (∃ row, create_training_prompt_formats G input = Ok row).
Proof.
  intros Hreg Hkg Hquest.
  pose proof (render_quest_renderable _ Hquest) as Hq.
  destruct (decide (TRAIN_TYPE G = "text_kg")) as [Hmode|Hmode].
  - rewrite create_generation_text_kg, create_training_text_kg by done.
    destruct (text_kg_generation_returns G input (plots_of input) g kg Hreg Hkg) as [stG ->].
    destruct (text_kg_training_returns G input (plots_of input) kg Hreg Hkg) as [stT ->].
    rewrite Hq. cbn. split; by eexists.
  - rewrite create_generation_plain, create_training_plain by done.
    rewrite Hq. cbn. split; by eexists.
Qed.

Lemma complete_graph_gives_a_prompt_witness :
  let G := notebook "text_kg" 2 registry in
  let input := row [kb_delilah] quest_three in
  kg_map G !! ex_game input = Some kg_isles ∧
  ∃ row, (create_generation_prompt_formats G input [0]).1 = Ok row.
Proof.
  cbv zeta. split; [reflexivity|].
  apply (complete_graph_gives_a_prompt (notebook "text_kg" 2 registry)
           (row [kb_delilah] quest_three) [0] kg_isles).
  - reflexivity.
  - apply kg_isles_complete.
  - apply (for_each_quest_renderable quest_three "" (cat (field_text <$> quest_three))).
    vm_compute. reflexivity.
Defined.

(** ** [get_max_length] *)

(** Property X14.  [get_max_length] never returns zero. *)
Theorem get_max_length_nonzero (config : gmap string Z) : get_max_length config ≠ 0%Z.
Proof.
  unfold get_max_length.
  destruct (scan_length_settings config _ None) as [n|]; simpl; [|done].
  destruct (n =? 0)%Z eqn:Hn; simpl; [done|]. by apply Z.eqb_neq.
Qed.

(** Property X15.  [get_max_length] returns the first setting among
    [n_positions], [max_position_embeddings] and [seq_length], in this
    order, that the configuration has with a value other than zero, and
    1024 when there is none. *)
Theorem get_max_length_first_nonzero (config : gmap string Z) :
  get_max_length config =
    hd 1024%Z (filter (λ n, n ≠ 0%Z) (omap (λ setting, config !! setting) length_settings)).
Proof.
  unfold get_max_length, length_settings. simpl.
  destruct (config !! "n_positions") as [n1|]; simpl;
    [destruct (Z.eqb_spec n1 0) as [->|H1]; simpl|];
    (destruct (config !! "max_position_embeddings") as [n2|]; simpl;
       [destruct (Z.eqb_spec n2 0) as [->|H2]; simpl|]);
    (destruct (config !! "seq_length") as [n3|]; simpl;
       [destruct (Z.eqb_spec n3 0) as [->|H3]; simpl|]);
    rewrite ?filter_cons_True, ?filter_cons_False by (done || tauto);
    repeat (rewrite filter_cons_False by tauto);
    repeat (rewrite filter_cons_True by done);
    try done;
    repeat match goal with
    | H : ?n ≠ 0%Z |- context [(?n =? 0)%Z] =>
        rewrite (proj2 (Z.eqb_neq n 0) H)
    end; done.
Qed.

(** ** [create_input_prompt] *)

(** Property X16.  [create_input_prompt] starts with the background header
    exactly when the background list is not empty; its text is then the
    background section, with the entries joined by line feeds and a blank
    line, followed by the text for the same plots without background,
    which is the plots section, a blank line and the quest header. *)
Theorem create_input_prompt_sections (background_info plots : list string) :
  String.prefix "### Background:" (create_input_prompt background_info plots) =
    bool_decide (background_info ≠ []) ∧
  create_input_prompt background_info plots =
    (if decide (background_info ≠ [])
     then "### Background:" +:+ nl +:+ nl +:+ join nl background_info +:+ nl +:+ nl
     else "") +:+
    create_input_prompt [] plots ∧
  create_input_prompt [] plots =
    "### Plots:" +:+ nl +:+ nl +:+ join nl plots +:+ nl +:+ nl +:+ "### Quest:" +:+ nl.
Proof.
  assert (create_input_prompt [] plots =
          "### Plots:" +:+ nl +:+ nl +:+ join nl plots +:+ nl +:+ nl +:+ "### Quest:" +:+ nl)
    as Hplain.
  { unfold create_input_prompt. rewrite decide_False by tauto.
    cbv zeta. by rewrite !append_assoc. }
  assert (create_input_prompt background_info plots =
          (if decide (background_info ≠ [])
           then "### Background:" +:+ nl +:+ nl +:+ join nl background_info +:+ nl +:+ nl
           else "") +:+ create_input_prompt [] plots) as Hsplit.
  { rewrite Hplain. unfold create_input_prompt.
    destruct (decide (background_info ≠ [])); cbv zeta; by rewrite !append_assoc. }
  split; [|done].
  rewrite Hsplit, Hplain. destruct (decide (background_info ≠ [])).
  - by rewrite bool_decide_eq_true_2.
  - by rewrite bool_decide_eq_false_2.
Qed.

(** ** [find_all_linear_names] *)

Lemma split_dot_cons_dot (rest : string) :
  split_dot (String "." rest) = "" :: split_dot rest.
Proof. reflexivity. Qed.

Lemma split_dot_nonempty (name : string) : split_dot name ≠ [].
Proof.
  induction name as [|c name IH]; [done|]. simpl.
  destruct (decide (c = "."%char)); [done|]. by destruct (split_dot name).
Qed.

(** Joining the pieces with dots gives the name back. *)
Lemma join_split_dot (name : string) : join "." (split_dot name) = name.
Proof.
  induction name as [|c name IH]; [done|]. simpl.
  destruct (decide (c = "."%char)) as [->|Hc].
  - destruct (split_dot name) as [|piece pieces] eqn:Hs;
      [by apply split_dot_nonempty in Hs|].
    change (join "." ("" :: piece :: pieces)) with ("" +:+ "." +:+ join "." (piece :: pieces)).
    by rewrite IH.
  - destruct (split_dot name) as [|piece pieces] eqn:Hs;
      [by apply split_dot_nonempty in Hs|].
    destruct pieces as [|piece' pieces].
    + simpl in *. by rewrite IH.
    + change (join "." (String c piece :: piece' :: pieces))
        with (String c (piece +:+ "." +:+ join "." (piece' :: pieces))).
      change (join "." (piece :: piece' :: pieces))
        with (piece +:+ "." +:+ join "." (piece' :: pieces)) in IH.
      by rewrite IH.
Qed.

Lemma dotless_cons (c : ascii) (piece : string) :
  c ≠ "."%char → dotless piece → dotless (String c piece).
Proof.
  unfold dotless. intros Hc Hp. rewrite str_in_cons, Hp, orb_false_r.
  unfold String.prefix. destruct (ascii_dec "." c) as [<-|]; done.
Qed.

Lemma split_dot_dotless (name : string) : Forall dotless (split_dot name).
Proof.
  induction name as [|c name IH]; [by repeat constructor|]. simpl.
  destruct (decide (c = "."%char)) as [->|Hc].
  - constructor; [done|done].
  - destruct (split_dot name) as [|piece pieces].
    + constructor; [by apply dotless_cons | done].
    + apply Forall_cons in IH as [Hp Hps]. constructor; [by apply dotless_cons | done].
Qed.

Lemma module_leaf_last (name : string) :
  last (split_dot name) = Some (module_leaf name).
Proof.
  unfold module_leaf.
  destruct (split_dot name) as [|piece pieces] eqn:Hs;
    [by apply split_dot_nonempty in Hs|].
  destruct (decide (length (piece :: pieces) = 1)) as [Hlen|Hlen].
  - destruct pieces; [done | simpl in Hlen; lia].
  - destruct (last (piece :: pieces)) eqn:Hlast; [done|].
    by apply last_None in Hlast.
Qed.

Lemma module_leaf_dotless (name : string) : dotless (module_leaf name).
Proof.
  pose proof (split_dot_dotless name) as Hall.
  pose proof (module_leaf_last name) as Hlast.
  rewrite Forall_forall in Hall. apply Hall.
  rewrite last_lookup in Hlast. by eapply list_elem_of_lookup_2.
Qed.

Lemma join_last (sep : string) (pieces : list string) (leaf : string) :
  last pieces = Some leaf →
  join sep pieces = leaf ∨ ∃ parent, join sep pieces = parent +:+ sep +:+ leaf.
Proof.
  induction pieces as [|piece pieces IH]; [done|].
  destruct pieces as [|piece' pieces].
  - intros [= ->]. by left.
  - intros Hlast. right.
    change (join sep (piece :: piece' :: pieces))
      with (piece +:+ sep +:+ join sep (piece' :: pieces)).
    destruct (IH Hlast) as [->|[parent ->]].
    + by exists piece.
    + exists (piece +:+ sep +:+ parent). by rewrite !append_assoc.
Qed.

(** The leaf of a module name is what follows its last dot. *)
Lemma module_leaf_suffix (name : string) :
  name = module_leaf name ∨ ∃ parent, name = parent +:+ "." +:+ module_leaf name.
Proof.
  pose proof (join_last "." _ _ (module_leaf_last name)) as H.
  by rewrite join_split_dot in H.
Qed.

Lemma split_dot_dotless_id (piece : string) : dotless piece → split_dot piece = [piece].
Proof.
  unfold dotless. induction piece as [|c piece IH]; [done|].
  rewrite str_in_cons. intros [Hp Hin]%orb_false_iff. simpl.
  destruct (decide (c = "."%char)) as [->|Hc].
  - simpl in Hp. by destruct piece.
  - by rewrite (IH Hin).
Qed.

Lemma split_dot_app (parent leaf : string) :
  split_dot (parent +:+ "." +:+ leaf) = split_dot parent ++ split_dot leaf.
Proof.
  induction parent as [|c parent IH]; [done|].
  rewrite append_cons. simpl. rewrite IH.
  destruct (decide (c = "."%char)); [done|].
  destruct (split_dot parent) as [|piece pieces] eqn:Hs;
    [by apply split_dot_nonempty in Hs | done].
Qed.

Lemma module_leaf_of_dotted (parent leaf : string) :
  dotless leaf → module_leaf (parent +:+ "." +:+ leaf) = leaf.
Proof.
  intros Hleaf.
  pose proof (module_leaf_last (parent +:+ "." +:+ leaf)) as Hlast.
  rewrite split_dot_app, (split_dot_dotless_id leaf Hleaf) in Hlast.
  rewrite last_snoc in Hlast. by injection Hlast.
Qed.

Lemma module_leaf_of_plain (leaf : string) : dotless leaf → module_leaf leaf = leaf.
Proof.
  intros Hleaf. pose proof (module_leaf_last leaf) as Hlast.
  rewrite (split_dot_dotless_id leaf Hleaf) in Hlast. by injection Hlast.
Qed.

Lemma linear_names_collected (named_modules : list (string * bool)) :
  ∀ (acc : gset string) (n : string),
    n ∈ foldl (λ (acc : gset string) (m : string * bool),
                 if m.2 then acc ∪ {[module_leaf m.1]} else acc) acc named_modules ↔
    n ∈ acc ∨ ∃ name, (name, true) ∈ named_modules ∧ module_leaf name = n.
Proof.
  induction named_modules as [|[name is_linear] named_modules IH]; intros acc n.
  - simpl. split; [by left|]. intros [?|(? & []%elem_of_nil & _)]. done.
  - rewrite foldl_step, IH. cbn [fst snd]. destruct is_linear.
    + rewrite elem_of_union, elem_of_singleton. split.
      * intros [[?| ->]|(name' & Hin & Hleaf)]; [by left| |].
        -- right. exists name. split; [by left | done].
        -- right. exists name'. split; [by right | done].
      * intros [?|(name' & [Heq|Hin]%elem_of_cons & Hleaf)].
        -- by left; left.
        -- injection Heq as ->. by left; right.
        -- right. by exists name'.
    + split.
      * intros [?|(name' & Hin & Hleaf)]; [by left|].
        right. exists name'. split; [by right | done].
      * intros [?|(name' & [Heq|Hin]%elem_of_cons & Hleaf)]; [by left|done|].
        right. by exists name'.
Qed.

Lemma find_all_linear_names_spec (named_modules : list (string * bool)) (n : string) :
  n ∈ find_all_linear_names named_modules ↔
  n ≠ "lm_head" ∧ ∃ name, (name, true) ∈ named_modules ∧ module_leaf name = n.
Proof.
  unfold find_all_linear_names. cbv zeta.
  destruct (decide ("lm_head" ∈ foldl _ ∅ named_modules)) as [Hin|Hin].
  - rewrite elem_of_difference, elem_of_singleton, linear_names_collected.
    split.
    + intros [[[]%elem_of_empty|H] Hne]. done.
    + intros [Hne H]. split; [by right | done].
  - rewrite linear_names_collected. split.
    + intros [[]%elem_of_empty|H]. split; [|done].
      intros ->. apply Hin. apply linear_names_collected. by right.
    + intros [_ H]. by right.
Qed.

(** Property X17.  Every name [find_all_linear_names] returns is not
    [lm_head], has no dot, and is the last component of the dotted name of
    a module of the class looked for: that name is the returned one or
    ends with a dot and the returned one. *)
Theorem linear_names_are_leaves (named_modules : list (string * bool)) (n : string) :
  n ∈ find_all_linear_names named_modules →
  n ≠ "lm_head" ∧ str_in "." n = false ∧
  ∃ name, (name, true) ∈ named_modules ∧
          (name = n ∨ ∃ parent, name = parent +:+ "." +:+ n).
Proof.
  intros (Hne & name & Hin & <-)%find_all_linear_names_spec.
  split; [done|]. split; [apply module_leaf_dotless|].
  exists name. split; [done | apply module_leaf_suffix].
Qed.

Lemma linear_names_are_leaves_witness :
  let named_modules :=
    [("", false); ("model.layers.0.self_attn.q_proj", true);
     ("model.layers.0.mlp", false); ("lm_head", true)] in
  "q_proj" ∈ find_all_linear_names named_modules ∧
  ∃ name, (name, true) ∈ named_modules ∧
          (name = "q_proj" ∨ ∃ parent, name = parent +:+ "." +:+ "q_proj").
Proof.
  cbv zeta.
  assert ("q_proj" ∈ find_all_linear_names
            [("", false); ("model.layers.0.self_attn.q_proj", true);
             ("model.layers.0.mlp", false); ("lm_head", true)]) as Hin
    by (vm_compute; reflexivity).
  split; [exact Hin|].
  by destruct (linear_names_are_leaves _ _ Hin) as (_ & _ & H).
Defined.

(** Property X18.  [find_all_linear_names] misses no module: for a module
    of the class looked for whose name is a dotless [leaf] other than
    [lm_head], or any parent path followed by a dot and such a leaf, the
    leaf is returned. *)
Theorem linear_modules_are_found (named_modules : list (string * bool))
    (parent leaf : string) :
  str_in "." leaf = false → leaf ≠ "lm_head" →
  (leaf, true) ∈ named_modules ∨ (parent +:+ "." +:+ leaf, true) ∈ named_modules →
  leaf ∈ find_all_linear_names named_modules.
Proof.
  intros Hdot Hne Hin. apply find_all_linear_names_spec. split; [done|].
  destruct Hin as [Hin|Hin].
  - exists leaf. split; [done | by apply module_leaf_of_plain].
  - exists (parent +:+ "." +:+ leaf). split; [done | by apply module_leaf_of_dotted].
Qed.

Lemma linear_modules_are_found_witness :
  "v_proj" ∈ find_all_linear_names
    [("model.layers.1.self_attn.v_proj", true); ("lm_head", true)].
Proof.
  apply (linear_modules_are_found _ "model.layers.1.self_attn" "v_proj");
    [vm_compute; reflexivity | discriminate |].
  right. apply list_elem_of_here.
Defined.

(** ** [print_trainable_parameters] *)

Lemma count_parameter_counted (acc : report) (param : parameter) :
  count_parameter acc param =
    {| all_param := (all_param acc + counted param)%N;
       trainable_params :=
         if requires_grad param then (trainable_params acc + counted param)%N
         else trainable_params acc |}.
Proof.
  unfold count_parameter, counted.
  by destruct (ds_numel param), (numel param =? 0)%N eqn:H; simpl;
    try (apply N.eqb_eq in H; rewrite H).
Qed.

Lemma total_cons (n : N) (counts : list N) : total (n :: counts) = (n + total counts)%N.
Proof. reflexivity. Qed.

Lemma count_parameters_totals (named_parameters : list parameter) :
  ∀ acc : report,
    let counts := foldl count_parameter acc named_parameters in
    all_param counts = (all_param acc + total (counted <$> named_parameters))%N ∧
    trainable_params counts =
      (trainable_params acc +
       total (counted <$> filter (λ p, requires_grad p = true) named_parameters))%N.
Proof.
  induction named_parameters as [|param named_parameters IH]; intros acc; cbv zeta.
  - simpl. by rewrite !N.add_0_r.
  - rewrite foldl_step. destruct (IH (count_parameter acc param)) as [Hall Htrain].
    rewrite Hall, Htrain, count_parameter_counted. cbn [all_param trainable_params].
    destruct (requires_grad param) eqn:Hgrad.
    + rewrite filter_cons_True by done. rewrite !fmap_cons, !total_cons. split; lia.
    + rewrite filter_cons_False by (by rewrite Hgrad). rewrite !fmap_cons, !total_cons.
      split; lia.
Qed.

Lemma total_filter_le (named_parameters : list parameter) :
  (total (counted <$> filter (λ p, requires_grad p = true) named_parameters)
   ≤ total (counted <$> named_parameters))%N.
Proof.
  induction named_parameters as [|param named_parameters IH]; [done|].
  destruct (requires_grad param) eqn:Hgrad.
  - rewrite filter_cons_True by done. rewrite !fmap_cons, !total_cons. lia.
  - rewrite filter_cons_False by (by rewrite Hgrad). rewrite !fmap_cons, !total_cons. lia.
Qed.

Lemma total_zero (counts : list N) : total counts = 0%N ↔ Forall (λ n, n = 0%N) counts.
Proof.
  induction counts as [|n counts IH].
  - split; [by constructor | done].
  - rewrite total_cons, Forall_cons, <- IH. lia.
Qed.

(** Property X19.  With [use_4bit] the call of
    [print_trainable_parameters] raises [ValueError] for every model: the
    halved count is a float and the message formats it with [d].  Without
    it the call never raises [ValueError], and raises [ZeroDivisionError]
    exactly when every parameter counts zero elements. *)
Theorem print_trainable_parameters_raises (named_parameters : list parameter)
    (use_4bit : bool) :
  (use_4bit = true →
   print_trainable_parameters named_parameters use_4bit = inl ValueError) ∧
  (use_4bit = false →
   (print_trainable_parameters named_parameters use_4bit = inl ZeroDivisionError ↔
    Forall (λ param, counted param = 0%N) named_parameters) ∧
   (print_trainable_parameters named_parameters use_4bit ≠ inl ValueError)).
Proof.
  split; [by intros ->|]. intros ->. unfold print_trainable_parameters. cbv zeta.
  destruct (count_parameters_totals named_parameters
              {| all_param := 0; trainable_params := 0 |}) as [Hall _].
  cbn [all_param] in Hall. rewrite N.add_0_l in Hall.
  destruct (N.eqb_spec
              (all_param (foldl count_parameter
                 {| all_param := 0; trainable_params := 0 |} named_parameters)) 0)
    as [Hz|Hnz].
  - split; [|done]. split; [intros _|done].
    rewrite Hall in Hz. apply total_zero in Hz. by rewrite Forall_fmap in Hz.
  - split; [|done]. split; [done|]. intros Hzero. exfalso. apply Hnz.
    rewrite Hall. apply total_zero. by rewrite Forall_fmap.
Qed.

(** Property X20.  When [print_trainable_parameters] prints its message,
    [use_4bit] is off, [all_param] is the sum of the counts of all the
    parameters, [trainable_params] the sum over those that require a
    gradient, the second is at most the first, and the first is positive:
    the percentage printed is between 0 and 100. *)
Theorem print_trainable_parameters_counts (named_parameters : list parameter)
    (use_4bit : bool) (counts : report) :
  print_trainable_parameters named_parameters use_4bit = inr counts →
  use_4bit = false ∧
  all_param counts = total (counted <$> named_parameters) ∧
  trainable_params counts =
    total (counted <$> filter (λ p, requires_grad p = true) named_parameters) ∧
  (trainable_params counts ≤ all_param counts)%N ∧
  (0 < all_param counts)%N.
Proof.
  unfold print_trainable_parameters. cbv zeta.
  destruct use_4bit; [done|].
  destruct (count_parameters_totals named_parameters
              {| all_param := 0; trainable_params := 0 |}) as [Hall Htrain].
  cbn [all_param trainable_params] in Hall, Htrain.
  rewrite N.add_0_l in Hall, Htrain.
  destruct (N.eqb_spec
              (all_param (foldl count_parameter
                 {| all_param := 0; trainable_params := 0 |} named_parameters)) 0)
    as [Hz|Hnz]; [done|].
  intros [= <-]. split; [done|]. split; [done|]. split; [done|].
  split; [|lia]. rewrite Hall, Htrain. apply total_filter_le.
Qed.

Lemma print_trainable_parameters_counts_witness :
  let named_parameters :=
    [ {| numel := 4096; ds_numel := None; requires_grad := false |};
      {| numel := 0; ds_numel := Some 64%N; requires_grad := true |};
      {| numel := 0; ds_numel := None; requires_grad := true |} ] in
  print_trainable_parameters named_parameters false =
    inr {| all_param := 4160; trainable_params := 64 |} ∧
  (64 ≤ 4160)%N.
Proof.
  cbv zeta.
  assert (print_trainable_parameters
            [ {| numel := 4096; ds_numel := None; requires_grad := false |};
              {| numel := 0; ds_numel := Some 64%N; requires_grad := true |};
              {| numel := 0; ds_numel := None; requires_grad := true |} ] false =
          inr {| all_param := 4160; trainable_params := 64 |}) as Hrun
    by (vm_compute; reflexivity).
  split; [exact Hrun|].
  by destruct (print_trainable_parameters_counts _ _ _ Hrun) as (_ & _ & _ & H & _).
Defined.

Lemma print_trainable_parameters_raises_witness :
  print_trainable_parameters
    [ {| numel := 4096; ds_numel := None; requires_grad := true |} ] true =
    inl ValueError ∧
  print_trainable_parameters
    [ {| numel := 0; ds_numel := None; requires_grad := true |} ] false =
    inl ZeroDivisionError.
Proof.
  split.
  - by apply (print_trainable_parameters_raises _ true).
  - apply (print_trainable_parameters_raises _ false); [done|].
    by repeat constructor.
Defined.

(** ** [preprocess_dataset] *)

Lemma map_rows_app {A B} (f : A → result B) (before after : list A) :
  map_rows f (before ++ after) =
    rows ← map_rows f before; rows' ← map_rows f after; Ok (rows ++ rows').
Proof.
  induction before as [|row before IH]; simpl.
  - by destruct (map_rows f after).
  - destruct (f row); simpl; [|done]. rewrite IH.
    destruct (map_rows f before); simpl; [|done].
    by destruct (map_rows f after).
Qed.

Lemma map_rows_all_ok {A B} (f : A → result B) (rows : list A) :
  Forall (λ row, ∃ row', f row = Ok row') rows → ∃ rows', map_rows f rows = Ok rows'.
Proof.
  induction 1 as [|row rows [row' Hrow] _ [rows' IH]]; simpl; [by eexists|].
  rewrite Hrow, IH. by eexists.
Qed.

Lemma map_rows_Ok {A B} (f : A → result B) (rows : list A) (rows' : list B) :
  map_rows f rows = Ok rows' → Forall2 (λ row row', f row = Ok row') rows rows'.
Proof.
  revert rows'. induction rows as [|row rows IH]; intros rows'; simpl.
  - intros [= <-]. constructor.
  - destruct (f row) as [row'|] eqn:Hrow; simpl; [|done].
    destruct (map_rows f rows) as [rows''|]; simpl; [|done].
    intros [= <-]. constructor; [done | by apply IH].
Qed.

(** Property X21.  [preprocess_dataset] raises what
    [create_training_prompt_formats] raises on the first row it fails on:
    one row whose prompt cannot be built ends the preprocessing of the
    whole data set, whatever the rows after it, the tokenizer and the
    maximal length. *)
Theorem preprocess_dataset_first_failure tokenizer (G : globals) (max_length : Z)
    (before after : list example) (row : example) (e : exn) :
  Forall (λ row, ∃ row', create_training_prompt_formats G row = Ok row') before →
  create_training_prompt_formats G row = Raise e →
  preprocess_dataset tokenizer G max_length (before ++ row :: after) = Raise e.
Proof.
  intros Hbefore Hrow. unfold preprocess_dataset.
  destruct (map_rows_all_ok _ _ Hbefore) as [rows Hrows].
  rewrite map_rows_app, Hrows. simpl. by rewrite Hrow.
Qed.

(** Property X22.  Every sample [preprocess_dataset] returns has fewer than
    [max_length] token ids and comes from a row of the data set: its text
    is the training prompt of that row and its token ids and attention
    mask are the tokenizer's for that text. *)
Theorem preprocess_dataset_samples tokenizer (G : globals) (max_length : Z)
    (dataset : list example) (samples : list sample) (s : sample) :
  preprocess_dataset tokenizer G max_length dataset = Ok samples →
  s ∈ samples →
  (Z.of_nat (length (input_ids s)) < max_length)%Z ∧
  ∃ row row',
    row ∈ dataset ∧ create_training_prompt_formats G row = Ok row' ∧
    s_text s = ex_text row' ∧ s_output s = ex_output row' ∧
    (input_ids s, attention_mask s) = tokenizer max_length (default "" (ex_text row')).
Proof.
  unfold preprocess_dataset.
  destruct (map_rows _ dataset) as [rows|] eqn:Hrows; [|done].
  cbv zeta. intros [= <-] [Hlen Hin]%list_elem_of_filter.
  split; [done|].
  apply list_elem_of_fmap in Hin as (row' & -> & Hin).
  apply map_rows_Ok in Hrows.
  apply list_elem_of_lookup in Hin as [i Hi].
  destruct (Forall2_lookup_r _ _ _ _ _ Hrows Hi) as (row & Hrow & Hok).
  exists row, row'. cbn [s_text s_output input_ids attention_mask].
  split; [by eapply list_elem_of_lookup_2|]. split; [done|].
  split; [done|]. split; [done|]. by destruct (tokenizer _ _).
Qed.

Lemma preprocess_dataset_first_failure_witness :
  let G := notebook "text_kg" 2 registry in
  let dataset := [row [kb_delilah] quest_three; row [] quest_one; row [] quest_three] in
  preprocess_dataset char_tokenizer G 4096 dataset = Raise TypeError.
Proof.
  cbv zeta.
  apply (preprocess_dataset_first_failure char_tokenizer (notebook "text_kg" 2 registry) 4096
           [row [kb_delilah] quest_three] [row [] quest_three] (row [] quest_one) TypeError).
  - constructor; [|constructor]. eexists. vm_compute. reflexivity.
  - vm_compute. reflexivity.
Defined.

Lemma preprocess_dataset_samples_witness :
  let G := notebook "text_kg" 2 registry in
  let dataset := [row [kb_delilah] quest_three] in
  ∃ samples s,
    preprocess_dataset char_tokenizer G 4096 dataset = Ok samples ∧ s ∈ samples ∧
    (Z.of_nat (length (input_ids s)) < 4096)%Z ∧
    ex_text <$> create_training_prompt_formats G (row [kb_delilah] quest_three) =
      Ok (s_text s).
Proof.
  cbv zeta.
  destruct (preprocess_dataset char_tokenizer (notebook "text_kg" 2 registry) 4096
              [row [kb_delilah] quest_three]) as [samples|e] eqn:Hrun;
    [|vm_compute in Hrun; discriminate].
  destruct samples as [|s samples]; [vm_compute in Hrun; discriminate|].
  exists (s :: samples), s. split; [done|]. split; [apply list_elem_of_here|].
  destruct (preprocess_dataset_samples _ _ _ _ _ s Hrun (list_elem_of_here _ _))
    as (Hlen & r & r' & Hin & Hok & Htext & _).
  split; [done|]. apply list_elem_of_singleton in Hin as ->. by rewrite Hok, Htext.
Defined.
